(** * node-sqlite3: the per-connection operation scheduler of [src/database.cc]

    A shallow embedding of [Database] (the request queue, the open / locked /
    pending discipline, the open and close state machine and the reference
    counted lifecycle) together with the facts the specification states
    about it.

    The connection object lives on a single event-loop thread.  The blocking
    engine calls run on the worker pool ([eio_custom]); their completion
    handlers run back on the event-loop thread.  The embedding keeps that
    split: a request handed to [eio_custom] sits in [pool] until a worker
    step runs its [EIO_*] body and a later event-loop step runs its
    [EIO_After*] handler. *)

From Stdlib Require Import ZArith List Ascii String Bool Arith Lia ZifyBool.
Import ListNotations.
Local Open Scope string_scope.

(** ** Constants of sqlite3.h *)

Definition SQLITE_OK : Z := 0%Z.
Definition SQLITE_BUSY : Z := 5%Z.
Definition SQLITE_CANTOPEN : Z := 14%Z.
Definition SQLITE_MISUSE : Z := 21%Z.
Definition SQLITE_OPEN_READONLY : Z := 1%Z.
Definition SQLITE_OPEN_READWRITE : Z := 2%Z.
Definition SQLITE_OPEN_CREATE : Z := 4%Z.
Definition SQLITE_OPEN_FULLMUTEX : Z := 65536%Z.

(** ** Host values *)

(** The JavaScript values the binding inspects.  [Int32 n] is a number for
    which [IsInt32()] holds and whose [Int32Value()] is [n]; [Number] stands
    for every other number.  [Error msg errno] is the object the [EXCEPTION]
    macro builds. *)
Inductive Value : Type :=
| Undefined
| Null
| Int32 (n : Z)
| Number
| JsString (s : string)
| Function (f : nat)
| Error (msg : string) (errno : Z)
| TypeError (msg : string)
| This.

Definition IsInt32 (v : Value) : bool :=
  match v with Int32 _ => true | _ => false end.

Definition Int32Value (v : Value) : Z :=
  match v with Int32 n => n | _ => 0%Z end.

Definition IsFunction (v : Value) : bool :=
  match v with Function _ => true | _ => false end.

Definition IsString (v : Value) : bool :=
  match v with JsString _ => true | _ => false end.

Definition ToString (v : Value) : string :=
  match v with JsString s => s | _ => "" end.

(** The text a NUL-terminated [char*] denotes: the bytes of the buffer up
    to its first NUL.  [*filename] on a [String::Utf8Value] and [c_str()]
    on a [std::string] both yield such a pointer, so an assignment from
    one, or an engine call that takes one, sees no more than this. *)
Fixpoint c_str (s : string) : string :=
  match s with
  | EmptyString => EmptyString
  | String c rest =>
    if Ascii.eqb c "000"%char then EmptyString else String c (c_str rest)
  end.

(** [Local<Function>::Cast] followed by [Persistent<Function>::New]: an
    empty handle is [None]. *)
Definition persistent (v : Value) : option nat :=
  match v with Function f => Some f | _ => None end.

(** [args[i]]: reading past the end of [Arguments] yields [undefined]. *)
Definition arg (args : list Value) (i : nat) : Value := nth i args Undefined.

(** Modelled from the spec: the [EXCEPTION(msg, errno, name)] macro of
    macros.h, which is not part of the sources at hand; the spec has an
    error carry the engine's status code and a message. *)
Definition EXCEPTION (msg : string) (errno : Z) : Value := Error msg errno.

(** ** Data model *)

(** The engine's connection, [sqlite3*]; [None] is the NULL pointer. *)
Definition sqlite3 : Type := nat.

Module Baton.
Record t : Type := mk {
  callback : option nat;
  status : Z;
  message : string;
  filename : string;
  mode : Z
}.
Definition set_status (st : Z) (b : t) : t :=
  mk (callback b) st (message b) (filename b) (mode b).
Definition set_message (m : string) (b : t) : t :=
  mk (callback b) (status b) m (filename b) (mode b).
End Baton.

(** The work functions a queued record can point to.  [EIO_BeginClose] is
    the only one defined in database.cc; [BeginShared] stands for the work
    function of a non-exclusive operation. *)
Inductive EIO_Callback : Type :=
| cb_EIO_BeginClose
| cb_BeginShared.

Module Call.
Record t : Type := mk {
  callback : EIO_Callback;
  baton : Baton.t;
  exclusive : bool
}.
End Call.

(** State of the persistent handle [handle_] that ties the C++ object to
    its JavaScript wrapper. *)
Inductive Persistent : Type :=
| Empty
| Strong
| Weak.

Definition IsEmpty (p : Persistent) : bool :=
  match p with Empty => true | _ => false end.

Definition IsWeak (p : Persistent) : bool :=
  match p with Weak => true | _ => false end.

Record Database : Type := mkDatabase {
  open : bool;
  locked : bool;
  pending : nat;
  queue : list Call.t;
  handle : option sqlite3;
  handle_ : Persistent;
  refs_ : nat
}.

(** The work handed to [eio_custom], by its execute function. *)
Inductive Job : Type :=
| JobOpen
| JobClose
| JobDestruct
| JobShared.

(** A request in the worker pool: [data] is the baton ([None] for
    [EIO_Destruct], whose data is the connection itself); [done] tells
    whether the worker thread has run the execute function. *)
Record eio_req : Type := mkReq {
  job : Job;
  data : option Baton.t;
  done : bool
}.

(** What the connection does to its collaborators, in order. *)
Inductive Obs : Type :=
| Called (f : nat) (argv : list Value)
| Emitted (argv : list Value)
| Dispatched (j : Job) (b : option Baton.t)
| Engine_open (path : string) (flags : Z) (rc : Z)
| Engine_close (h : option sqlite3) (rc : Z).

Record World : Type := mkWorld {
  db : option Database;
  this_ : list (string * Value);
  pool : list eio_req;
  ev_refs : Z;
  log : list Obs;
  collected : bool
}.

Definition empty_world : World := mkWorld None [] [] 0%Z [] false.

(** ** A state and failure monad *)

Inductive Err : Type :=
| AssertionFailed (expr : string)
| NullPointer
| OutOfFuel.

Inductive Res (A : Type) : Type :=
| Ok (a : A) (w : World)
| Abort (e : Err).
Arguments Ok {A} a w.
Arguments Abort {A} e.

Definition M (A : Type) : Type := World -> Res A.

Definition ret {A : Type} (a : A) : M A := fun w => Ok a w.

Definition bind {A B : Type} (m : M A) (k : A -> M B) : M B :=
  fun w => match m w with
           | Ok a w' => k a w'
           | Abort e => Abort e
           end.

Declare Scope m_scope.
Delimit Scope m_scope with M.
Notation "x <- m ;; k" := (bind m (fun x => k))
  (at level 61, m at next level, right associativity) : m_scope.
Notation "m ;; k" := (bind m (fun _ => k))
  (at level 61, right associativity) : m_scope.
Local Open Scope m_scope.

Definition assert (b : bool) (expr : string) : M unit :=
  fun w => if b then Ok tt w else Abort (AssertionFailed expr).

Definition get_db : M Database :=
  fun w => match db w with
           | Some d => Ok d w
           | None => Abort NullPointer
           end.

Definition set_db (d : option Database) (w : World) : World :=
  mkWorld d (this_ w) (pool w) (ev_refs w) (log w) (collected w).

Definition put_db (d : Database) : M unit := fun w => Ok tt (set_db (Some d) w).

Definition observe (o : Obs) : M unit :=
  fun w => Ok tt (mkWorld (db w) (this_ w) (pool w) (ev_refs w)
                          (log w ++ [o]) (collected w)).

Definition set_pool (p : list eio_req) (w : World) : World :=
  mkWorld (db w) (this_ w) p (ev_refs w) (log w) (collected w).

Definition set_ev_refs (n : Z) (w : World) : World :=
  mkWorld (db w) (this_ w) (pool w) n (log w) (collected w).

(** ** Field updates of [Database] *)

Definition set_open (b : bool) (d : Database) : Database :=
  mkDatabase b (locked d) (pending d) (queue d) (handle d) (handle_ d) (refs_ d).
Definition set_locked (b : bool) (d : Database) : Database :=
  mkDatabase (open d) b (pending d) (queue d) (handle d) (handle_ d) (refs_ d).
Definition set_pending (n : nat) (d : Database) : Database :=
  mkDatabase (open d) (locked d) n (queue d) (handle d) (handle_ d) (refs_ d).
Definition set_queue (q : list Call.t) (d : Database) : Database :=
  mkDatabase (open d) (locked d) (pending d) q (handle d) (handle_ d) (refs_ d).
Definition set_handle (h : option sqlite3) (d : Database) : Database :=
  mkDatabase (open d) (locked d) (pending d) (queue d) h (handle_ d) (refs_ d).
Definition set_handle_ (p : Persistent) (d : Database) : Database :=
  mkDatabase (open d) (locked d) (pending d) (queue d) (handle d) p (refs_ d).
Definition set_refs_ (n : nat) (d : Database) : Database :=
  mkDatabase (open d) (locked d) (pending d) (queue d) (handle d) (handle_ d) n.

Definition modify (f : Database -> Database) : M unit :=
  d <- get_db ;; put_db (f d).

(** ** Collaborators *)

(** [TRY_CATCH_CALL(db->handle_, callback, argc, argv)].  The callee is
    the caller's own function, and this development does not look inside
    it: the call is recorded, and whatever the callee asks of the
    connection is a [close] or a submission like any other, taken up as an
    event of its own once the handler that made the call has returned. *)
Definition TRY_CATCH_CALL (f : nat) (argv : list Value) : M unit :=
  observe (Called f argv).

(** [EMIT_EVENT(db->handle_, argc, argv)]: only the first [argc] entries
    of [argv] are passed on.  The listeners are the caller's functions,
    and are treated as the callee of [TRY_CATCH_CALL] is. *)
Definition EMIT_EVENT (argc : nat) (argv : list Value) : M unit :=
  observe (Emitted (firstn argc argv)).

(** [ev_ref(EV_DEFAULT_UC)] and [ev_unref(EV_DEFAULT_UC)]. *)
Definition ev_ref : M unit := fun w => Ok tt (set_ev_refs (ev_refs w + 1)%Z w).
Definition ev_unref : M unit := fun w => Ok tt (set_ev_refs (ev_refs w - 1)%Z w).

(** [eio_custom(execute, EIO_PRI_DEFAULT, finish, data)]. *)
Definition eio_custom (j : Job) (b : option Baton.t) : M unit :=
  observe (Dispatched j b) ;;
  fun w => Ok tt (set_pool (pool w ++ [mkReq j b false]) w).

(** ** Reference counting (node::ObjectWrap and its overrides) *)

Definition MakeWeak : M unit := modify (set_handle_ Weak).

(** [ObjectWrap::Ref], inherited from node.h: [refs_++] and
    [handle_.ClearWeak()]. *)
Definition Ref : M unit :=
  d <- get_db ;;
  assert (negb (IsEmpty (handle_ d))) "!handle_.IsEmpty()" ;;
  put_db (set_handle_ Strong (set_refs_ (S (refs_ d)) d)).

Definition Unref : M unit :=
  d <- get_db ;;
  assert (negb (IsEmpty (handle_ d))) "!handle_.IsEmpty()" ;;
  assert (negb (IsWeak (handle_ d))) "!handle_.IsWeak()" ;;
  assert (0 <? refs_ d)%nat "refs_ > 0" ;;
  put_db (set_refs_ (refs_ d - 1) d) ;;
  if (refs_ d - 1 =? 0)%nat then MakeWeak else ret tt.

(** [Database::Wrap]; the JavaScript object made from the constructor
    template has one internal field. *)
Definition Wrap : M unit :=
  d <- get_db ;;
  assert (IsEmpty (handle_ d)) "handle_.IsEmpty()" ;;
  put_db (set_handle_ Strong d) ;;
  MakeWeak.

(** ** Work functions *)

Definition EIO_BeginClose (baton : Baton.t) : M unit :=
  d <- get_db ;;
  assert (open d) "baton->db->open" ;;
  assert (negb (locked d)) "!baton->db->locked" ;;
  assert (pending d =? 0)%nat "baton->db->pending == 0" ;;
  modify (set_locked true) ;;
  eio_custom JobClose (Some baton).

(** Modelled from the spec: the work function of a shared operation, which
    lives outside database.cc.  The spec has [pending] count the shared
    operations dispatched and not yet completed, and has every dispatch
    bracketed by the reference count and the event-loop marker. *)
Definition BeginShared (baton : Baton.t) : M unit :=
  modify (fun d => set_pending (S (pending d)) d) ;;
  Ref ;;
  ev_ref ;;
  eio_custom JobShared (Some baton).

(** [call->callback(call->baton)] through the function pointer. *)
Definition invoke (callback : EIO_Callback) (baton : Baton.t) : M unit :=
  match callback with
  | cb_EIO_BeginClose => EIO_BeginClose baton
  | cb_BeginShared => BeginShared baton
  end.

(** ** The scheduler *)

Definition queue_empty (d : Database) : bool :=
  match queue d with [] => true | _ => false end.

Definition queue_pop : M unit := modify (fun d => set_queue (tl (queue d)) d).

Definition queue_push (c : Call.t) : M unit :=
  modify (fun d => set_queue (queue d ++ [c]) d).

(** The [while] loop of [Database::Process]; [fuel] bounds the number of
    iterations and the loop aborts with [OutOfFuel] if that bound is hit. *)
Fixpoint Process_loop (fuel : nat) : M unit :=
  match fuel with
  | O => fun _ => Abort OutOfFuel
  | S fuel' =>
    d <- get_db ;;
    if open d && negb (locked d) && negb (queue_empty d) then
      match queue d with
      | [] => ret tt
      | call :: _ =>
        if Call.exclusive call && (0 <? pending d)%nat then ret tt
        else
          invoke (Call.callback call) (Call.baton call) ;;
          queue_pop ;;
          Process_loop fuel'
      end
    else ret tt
  end.

Definition Process : M unit :=
  d <- get_db ;;
  if negb (open d) && locked d && negb (queue_empty d) then
    let exception := EXCEPTION "Database is closed" SQLITE_MISUSE in
    EMIT_EVENT 2 [JsString "error"; exception]
  else
    Process_loop (S (List.length (queue d))).

Definition Schedule (callback : EIO_Callback) (baton : Baton.t)
                    (exclusive : bool) : M unit :=
  d <- get_db ;;
  if negb (open d) && locked d then
    let exception := EXCEPTION "Database is closed" SQLITE_MISUSE in
    match Baton.callback baton with
    | Some f => TRY_CATCH_CALL f [exception]
    | None => EMIT_EVENT 2 [JsString "error"; exception]
    end
  else if negb (open d) || locked d || (exclusive && (0 <? pending d)%nat) then
    queue_push (Call.mk callback baton exclusive)
  else
    invoke callback baton.

(** ** Construction and the open transition *)

(** What a native method hands back to the host: a value, or a thrown
    exception. *)
Inductive Completion : Type :=
| Returned (v : Value)
| Thrown (v : Value).

(** The engine's answer to one blocking call: its status code, the text of
    the NUL-terminated string [sqlite3_errmsg] returns, and (for an open)
    the connection it made. *)
Record Answer : Type := mkAnswer {
  rc : Z;
  errmsg : string;
  conn : sqlite3
}.

(** Modelled from the spec: [new Database()]; the constructor is declared in
    database.h, which is not part of the sources at hand.  The spec has a
    fresh connection unopened, unlocked, with nothing pending, an empty
    queue and no native handle; [refs_] and [handle_] start as
    node::ObjectWrap leaves them. *)
Definition new_Database : M unit :=
  fun w => Ok tt (set_db (Some (mkDatabase false false 0 [] None Empty 0)) w).

(** [delete db]. *)
Definition delete_db : M unit := fun w => Ok tt (set_db None w).

(** [args.This()->Set(String::NewSymbol(name), v, ReadOnly)]. *)
Definition This_Set (name : string) (v : Value) : M unit :=
  fun w => Ok tt (mkWorld (db w) (this_ w ++ [(name, v)]) (pool w)
                          (ev_refs w) (log w) (collected w)).

Definition EIO_BeginOpen (baton : Baton.t) : M unit :=
  Ref ;;
  ev_ref ;;
  eio_custom JobOpen (Some baton).

(** [Database::New].  [REQUIRE_ARGUMENT_STRING] comes from macros.h, which
    is not part of the sources at hand; it is taken to throw a [TypeError]
    unless argument 0 is a string. *)
Definition New (IsConstructCall : bool) (args : list Value) : M Completion :=
  if negb IsConstructCall then
    ret (Thrown (TypeError "Use the new keyword to create new Database objects"))
  else if (List.length args <=? 0)%nat || negb (IsString (arg args 0)) then
    ret (Thrown (TypeError "Argument 0 must be a string"))
  else
    let filename := ToString (arg args 0) in
    let pos := 1%nat in
    let mode := Z.lor SQLITE_OPEN_READWRITE SQLITE_OPEN_CREATE in
    let '(mode, pos) :=
      if (pos <=? List.length args)%nat && IsInt32 (arg args pos)
      then (Int32Value (arg args pos), S pos) else (mode, pos) in
    let '(callback, pos) :=
      if (pos <=? List.length args)%nat && IsFunction (arg args pos)
      then (persistent (arg args pos), S pos) else (None, pos) in
    new_Database ;;
    Wrap ;;
    This_Set "filename" (JsString (ToString (arg args 0))) ;;
    This_Set "mode" (Int32 mode) ;;
    let baton :=
      Baton.mk callback 0%Z "" (c_str filename)
               (Z.lor SQLITE_OPEN_FULLMUTEX mode) in
    EIO_BeginOpen baton ;;
    ret (Returned This).

(** [Database::EIO_Open], on the worker thread; [a] is what
    [sqlite3_open_v2] answers.  The updated baton is handed back. *)
Definition EIO_Open (baton : Baton.t) (a : Answer) : M Baton.t :=
  observe (Engine_open (c_str (Baton.filename baton)) (Baton.mode baton)
                       (rc a)) ;;
  modify (set_handle (Some (conn a))) ;;
  let baton := Baton.set_status (rc a) baton in
  if negb (Baton.status baton =? SQLITE_OK)%Z then
    modify (set_handle None) ;;
    ret (Baton.set_message (errmsg a) baton)
  else ret baton.

Definition EIO_AfterOpen (baton : Baton.t) : M unit :=
  Unref ;;
  ev_unref ;;
  argv0 <- (if negb (Baton.status baton =? SQLITE_OK)%Z then
              ret (EXCEPTION (Baton.message baton) (Baton.status baton))
            else
              modify (set_open true) ;; ret Null) ;;
  d <- get_db ;;
  match Baton.callback baton with
  | Some f => TRY_CATCH_CALL f [argv0]
  | None => if negb (open d)
            then EMIT_EVENT 2 [JsString "error"; argv0]
            else ret tt
  end ;;
  d <- get_db ;;
  if open d then
    EMIT_EVENT 1 [JsString "open"] ;;
    Process
  else ret tt.

(** ** The close transition *)

(** [Database::Close].  [OPTIONAL_ARGUMENT_FUNCTION] comes from macros.h;
    it is taken to keep argument 0 when it is a function and to leave the
    callback empty otherwise. *)
Definition Close (args : list Value) : M Completion :=
  let callback := persistent (arg args 0) in
  Ref ;;
  ev_ref ;;
  let baton := Baton.mk callback 0%Z "" "" 0%Z in
  Schedule cb_EIO_BeginClose baton true ;;
  ret (Returned This).

(** [Database::EIO_Close], on the worker thread; [a] is what
    [sqlite3_close] answers. *)
Definition EIO_Close (baton : Baton.t) (a : Answer) : M Baton.t :=
  d <- get_db ;;
  observe (Engine_close (handle d) (rc a)) ;;
  let baton := Baton.set_status (rc a) baton in
  if negb (Baton.status baton =? SQLITE_OK)%Z then
    ret (Baton.set_message (errmsg a) baton)
  else
    modify (set_handle None) ;;
    ret baton.

Definition EIO_AfterClose (baton : Baton.t) : M unit :=
  ev_unref ;;
  Unref ;;
  argv0 <- (if negb (Baton.status baton =? SQLITE_OK)%Z then
              ret (EXCEPTION (Baton.message baton) (Baton.status baton))
            else
              modify (set_open false) ;; ret Null) ;;
  d <- get_db ;;
  match Baton.callback baton with
  | Some f => TRY_CATCH_CALL f [argv0]
  | None => if open d
            then EMIT_EVENT 2 [JsString "error"; argv0]
            else ret tt
  end ;;
  d <- get_db ;;
  if negb (open d) then
    EMIT_EVENT 1 [JsString "close"; argv0] ;;
    Process
  else ret tt.

(** ** Finalization *)

(** [Database::Destruct], the weak callback the collector runs. *)
Definition Destruct : M unit :=
  d <- get_db ;;
  match handle d with
  | Some _ =>
    eio_custom JobDestruct None ;;
    ev_ref
  | None => delete_db
  end.

(** [Database::EIO_Destruct], on the worker thread. *)
Definition EIO_Destruct (a : Answer) : M unit :=
  d <- get_db ;;
  observe (Engine_close (handle d) (rc a)) ;;
  modify (set_handle None).

Definition EIO_AfterDestruct : M unit :=
  ev_unref ;;
  delete_db.

(** ** Shared operations *)

(** Modelled from the spec: the completion handler of a shared operation,
    which lives outside database.cc.  The spec has the reference count and
    the event-loop marker released before any completion action runs, has
    [pending] count the operations not yet completed, and has every
    completion re-enter the drain routine. *)
Definition AfterShared (baton : Baton.t) : M unit :=
  Unref ;;
  ev_unref ;;
  modify (fun d => set_pending (pending d - 1) d) ;;
  match Baton.callback baton with
  | Some f => TRY_CATCH_CALL f [Null]
  | None => ret tt
  end ;;
  Process.

(** A shared request arrives: [Schedule] with the default
    [exclusive = false]. *)
Definition Submit (callback : option nat) : M unit :=
  Schedule cb_BeginShared (Baton.mk callback 0%Z "" "" 0%Z) false.

(** ** The connection as a transition system *)

(** What can happen to a constructed connection: the caller invokes
    [close], a shared request is submitted, a worker thread runs the
    execute function of the [i]-th request in the pool (the engine
    answering [a]), the event loop runs the completion handler of the
    [i]-th request, or the collector finds the weak wrapper unreachable. *)
Inductive Event : Type :=
| EvClose (callback : option nat)
| EvSubmit (callback : option nat)
| EvWork (i : nat) (a : Answer)
| EvAfter (i : nat)
| EvGC.

Inductive Outcome : Type :=
| Next (w : World)
| Crash (e : Err)
| Disabled.

Definition outcome {A : Type} (r : Res A) : Outcome :=
  match r with
  | Ok _ w => Next w
  | Abort e => Crash e
  end.

Fixpoint replace_nth {A : Type} (i : nat) (x : A) (l : list A) : list A :=
  match l, i with
  | [], _ => []
  | _ :: t, O => x :: t
  | h :: t, S i' => h :: replace_nth i' x t
  end.

Fixpoint remove_nth {A : Type} (i : nat) (l : list A) : list A :=
  match l, i with
  | [], _ => []
  | _ :: t, O => t
  | h :: t, S i' => h :: remove_nth i' t
  end.

Definition no_baton : Baton.t := Baton.mk None 0%Z "" "" 0%Z.

Definition baton_of (r : eio_req) : Baton.t :=
  match data r with Some b => b | None => no_baton end.

(** The execute function of a request, on the worker thread. *)
Definition execute (r : eio_req) (a : Answer) : M eio_req :=
  match job r with
  | JobOpen =>
    b <- EIO_Open (baton_of r) a ;; ret (mkReq JobOpen (Some b) true)
  | JobClose =>
    b <- EIO_Close (baton_of r) a ;; ret (mkReq JobClose (Some b) true)
  | JobDestruct =>
    EIO_Destruct a ;; ret (mkReq JobDestruct None true)
  | JobShared => ret (mkReq JobShared (data r) true)
  end.

(** The completion handler of a request, on the event-loop thread. *)
Definition finish (r : eio_req) : M unit :=
  match job r with
  | JobOpen => EIO_AfterOpen (baton_of r)
  | JobClose => EIO_AfterClose (baton_of r)
  | JobDestruct => EIO_AfterDestruct
  | JobShared => AfterShared (baton_of r)
  end.

Definition args_of (callback : option nat) : list Value :=
  match callback with
  | Some f => [Function f]
  | None => []
  end.

Definition reachable_from_js (w : World) : bool :=
  match db w with
  | Some _ => negb (collected w)
  | None => false
  end.

Definition collectible (w : World) : bool :=
  match db w with
  | Some d => IsWeak (handle_ d) && negb (collected w)
  | None => false
  end.

Definition mark_collected (w : World) : World :=
  mkWorld (db w) (this_ w) (pool w) (ev_refs w) (log w) true.

Definition step (e : Event) (w : World) : Outcome :=
  match e with
  | EvClose callback =>
    if reachable_from_js w then outcome (Close (args_of callback) w)
    else Disabled
  | EvSubmit callback =>
    if reachable_from_js w then outcome (Submit callback w)
    else Disabled
  | EvWork i a =>
    match nth_error (pool w) i with
    | Some r =>
      if done r then Disabled
      else outcome ((r' <- execute r a ;;
                     fun w' => Ok tt (set_pool (replace_nth i r' (pool w')) w')) w)
    | None => Disabled
    end
  | EvAfter i =>
    match nth_error (pool w) i with
    | Some r =>
      if done r then outcome (finish r (set_pool (remove_nth i (pool w)) w))
      else Disabled
    | None => Disabled
    end
  | EvGC =>
    if collectible w then outcome (Destruct (mark_collected w))
    else Disabled
  end.

Fixpoint run (evs : list Event) (w : World) : Outcome :=
  match evs with
  | [] => Next w
  | e :: evs' =>
    match step e w with
    | Next w' => run evs' w'
    | o => o
    end
  end.

(** The world right after [new Database(args...)] returned. *)
Definition constructed (args : list Value) : Outcome :=
  outcome (New true args empty_world).

Definition launch (args : list Value) (evs : list Event) : Outcome :=
  match constructed args with
  | Next w => run evs w
  | o => o
  end.

(** ** Counting and observing *)

Definition b2n (b : bool) : nat := if b then 1 else 0.

Fixpoint count {A : Type} (f : A -> bool) (l : list A) : nat :=
  match l with
  | [] => 0
  | x :: t => b2n (f x) + count f t
  end.

Definition Job_eqb (a b : Job) : bool :=
  match a, b with
  | JobOpen, JobOpen | JobClose, JobClose
  | JobDestruct, JobDestruct | JobShared, JobShared => true
  | _, _ => false
  end.

Definition is_job (j : Job) (r : eio_req) : bool := Job_eqb (job r) j.
Definition holds_ref (r : eio_req) : bool := negb (is_job JobDestruct r).
Definition undone (j : Job) (r : eio_req) : bool := negb (done r) && is_job j r.
Definition finished (j : Job) (r : eio_req) : bool := done r && is_job j r.
Definition finished_ok (j : Job) (r : eio_req) : bool :=
  done r && is_job j r && (Baton.status (baton_of r) =? SQLITE_OK)%Z.
Definition any_req (r : eio_req) : bool := true.

Definition is_close_call (c : Call.t) : bool :=
  match Call.callback c with cb_EIO_BeginClose => true | _ => false end.

(** A queued close that is not marked exclusive; [Database::Close] never
    makes one. *)
Definition stray_close (c : Call.t) : bool :=
  is_close_call c && negb (Call.exclusive c).

Definition is_engine_open (o : Obs) : bool :=
  match o with Engine_open _ _ _ => true | _ => false end.
Definition is_open_ok (o : Obs) : bool :=
  match o with Engine_open _ _ r => (r =? SQLITE_OK)%Z | _ => false end.
Definition is_engine_close (o : Obs) : bool :=
  match o with Engine_close _ _ => true | _ => false end.
Definition is_close_ok (o : Obs) : bool :=
  match o with Engine_close _ r => (r =? SQLITE_OK)%Z | _ => false end.
Definition is_close_of_null (o : Obs) : bool :=
  match o with Engine_close None _ => true | _ => false end.
Definition is_dispatch (o : Obs) : bool :=
  match o with Dispatched _ _ => true | _ => false end.
Definition is_notification (o : Obs) : bool :=
  match o with Called _ _ | Emitted _ => true | _ => false end.

(** Every close call in the log was accepted by the engine. *)
Definition accepted_obs (o : Obs) : bool :=
  match o with Engine_close _ r => (r =? SQLITE_OK)%Z | _ => true end.

(** The close calls that reached the engine, and those it accepted. *)
Definition close_calls (l : list Obs) : nat := count is_engine_close l.
Definition accepted_closes (l : list Obs) : nat := count is_close_ok l.
Definition opened (l : list Obs) : Prop := 1 <= count is_open_ok l.

(** The dispatch a queued record produces when its work function runs. *)
Definition dispatch_of (c : Call.t) : Obs :=
  match Call.callback c with
  | cb_EIO_BeginClose => Dispatched JobClose (Some (Call.baton c))
  | cb_BeginShared => Dispatched JobShared (Some (Call.baton c))
  end.

(** The record a caller's request becomes when it is queued. *)
Definition record_of (e : Event) : list Call.t :=
  match e with
  | EvClose callback =>
    [Call.mk cb_EIO_BeginClose (Baton.mk callback 0%Z "" "" 0%Z) true]
  | EvSubmit callback =>
    [Call.mk cb_BeginShared (Baton.mk callback 0%Z "" "" 0%Z) false]
  | _ => []
  end.

(** The error [Schedule] and [Process] report on a closed connection. *)
Definition closed_error : Value := EXCEPTION "Database is closed" SQLITE_MISUSE.

(** How [Schedule] reports [closed_error] for a baton. *)
Definition closed_report (baton : Baton.t) : Obs :=
  match Baton.callback baton with
  | Some f => Called f [closed_error]
  | None => Emitted [JsString "error"; closed_error]
  end.

Definition add_log (o : Obs) (w : World) : World :=
  mkWorld (db w) (this_ w) (pool w) (ev_refs w) (log w ++ [o]) (collected w).

Definition enqueue (c : Call.t) (d : Database) (w : World) : World :=
  set_db (Some (set_queue (queue d ++ [c]) d)) w.

(** The mode a caller asks for: argument 1 when it is an int32, otherwise
    read-write-create. *)
Definition default_mode : Z := Z.lor SQLITE_OPEN_READWRITE SQLITE_OPEN_CREATE.

Definition requested_mode (args : list Value) : Z :=
  match arg args 1 with
  | Int32 n => n
  | _ => default_mode
  end.

(** The completion action a caller passes to the constructor: the first
    argument after the file name and the optional mode, when it is a
    function. *)
Definition open_callback (args : list Value) : option nat :=
  match arg args 1 with
  | Int32 _ => persistent (arg args 2)
  | v => persistent v
  end.

(** How a failed open is reported. *)
Definition open_failure_report (args : list Value) (a : Answer) : Obs :=
  match open_callback args with
  | Some f => Called f [EXCEPTION (errmsg a) (rc a)]
  | None => Emitted [JsString "error"; EXCEPTION (errmsg a) (rc a)]
  end.

(** ** The invariant of a constructed connection *)

(** [if (db->handle)]: the native handle is present. *)
Definition has_handle (d : Database) : bool :=
  match handle d with Some _ => true | None => false end.

(** What holds of a connection object between two events, for as long as
    the object exists.  [pool w] is the worker pool and [log w] what the
    engine and the host have seen so far. *)
Record Live (w : World) (d : Database) : Prop := mkLive {
  (* the wrapper is attached, and weak exactly when nobody holds a reference *)
  wrapped : IsEmpty (handle_ d) = false;
  weak_iff : IsWeak (handle_ d) = true <-> refs_ d = 0%nat;
  (* every request in flight and every queued close holds a reference *)
  refs_cover :
    count holds_ref (pool w) + count is_close_call (queue d) <= refs_ d;
  closes_exclusive : count stray_close (queue d) = 0%nat;
  (* the finalizer runs alone *)
  finalizing :
    collected w = true ->
    count (is_job JobDestruct) (pool w) = 1%nat /\ refs_ d = 0%nat;
  not_finalizing :
    collected w = false -> count (is_job JobDestruct) (pool w) = 0%nat;
  (* at most one close is in flight, on a locked, open connection *)
  one_close : count (is_job JobClose) (pool w) <= 1;
  close_locks :
    1 <= count (is_job JobClose) (pool w) -> locked d = true /\ open d = true;
  (* at most one open is in flight, on an unopened connection *)
  one_open : count (is_job JobOpen) (pool w) <= 1;
  opening : 1 <= count (is_job JobOpen) (pool w) -> open d = false;
  before_open :
    1 <= count (undone JobOpen) (pool w) ->
    close_calls (log w) = 0%nat /\ count is_open_ok (log w) = 0%nat;
  (* the native handle *)
  handle_unclosed : has_handle d = true -> accepted_closes (log w) = 0%nat;
  open_has_handle :
    collected w = false -> open d = true ->
    count (finished_ok JobClose) (pool w) = 0%nat -> has_handle d = true;
  opened_has_handle :
    1 <= count (finished_ok JobOpen) (pool w) -> has_handle d = true;
  destruct_has_handle :
    1 <= count (undone JobDestruct) (pool w) -> has_handle d = true;
  destructed_closed :
    1 <= count (finished JobDestruct) (pool w) -> 1 <= close_calls (log w);
  closed_after_open :
    opened (log w) -> has_handle d = false -> 1 <= close_calls (log w)
}.

Definition Inv (w : World) : Prop :=
  accepted_closes (log w) <= 1 /\
  count is_close_of_null (log w) = 0%nat /\
  match db w with
  | Some d => Live w d
  | None => pool w = [] /\ (opened (log w) -> 1 <= close_calls (log w))
  end.

(** ** Steps and the invariant *)

(** An event either is not enabled, or leads to a world that satisfies the
    invariant; it never trips an assertion or a null pointer. *)
Definition preserved (o : Outcome) : Prop :=
  match o with
  | Next w' => Inv w'
  | Crash _ => False
  | Disabled => True
  end.

(** The baton [Database::New] hands to [EIO_BeginOpen]; the file name is
    cut at its first NUL. *)
Definition open_baton (args : list Value) : Baton.t :=
  Baton.mk (open_callback args) 0%Z "" (c_str (ToString (arg args 0)))
           (Z.lor SQLITE_OPEN_FULLMUTEX (requested_mode args)).

(** The world a successful [new Database(args...)] leaves behind: the
    connection unopened, referenced once by the open request in flight. *)
Definition opening_world (args : list Value) (b : Baton.t) : World :=
  mkWorld (Some (mkDatabase false false 0 [] None Strong 1))
          [("filename", JsString (ToString (arg args 0)));
           ("mode", Int32 (requested_mode args))]
          [mkReq JobOpen (Some b) false] 1%Z
          [Dispatched JobOpen (Some b)] false.

(** ** A connection whose open failed *)

(** The shape of a connection that never opened and has nothing in flight:
    unopened, unlocked, without a native handle, holding the records [q];
    [lg] is everything its collaborators have seen.  The object may have
    been destroyed since. *)
Definition unopened (q : list Call.t) (lg : list Obs) (w : World) : Prop :=
  pool w = [] /\ log w = lg /\
  match db w with
  | None => True
  | Some d =>
    open d = false /\ locked d = false /\ handle d = None /\
    IsEmpty (handle_ d) = false /\ queue d = q
  end.

(** The world a failed open leaves behind, after its completion handler
    ran. *)
Definition failed_world (args : list Value) (a : Answer) : World :=
  mkWorld (Some (mkDatabase false false 0 [] None Weak 0))
          [("filename", JsString (ToString (arg args 0)));
           ("mode", Int32 (requested_mode args))]
          [] 0%Z
          [Dispatched JobOpen (Some (open_baton args));
           Engine_open (c_str (ToString (arg args 0)))
                       (Z.lor SQLITE_OPEN_FULLMUTEX (requested_mode args)) (rc a);
           open_failure_report args a]
          false.

(** ** Sample inputs *)

Definition accepted : Answer := mkAnswer SQLITE_OK "" 7.
Definition rejected : Answer :=
  mkAnswer SQLITE_BUSY "unable to close due to unfinalised statements" 7.
Definition cannot_open : Answer :=
  mkAnswer SQLITE_CANTOPEN "unable to open database file" 7.
Definition test_db : list Value := [JsString "test.db"; Function 1].

(** The JavaScript string ['a\0b']: three characters, the second a NUL. *)
Definition nul_name : string := String "a" (String "000" "b").

Definition close_record (f : nat) : Call.t :=
  Call.mk cb_EIO_BeginClose (Baton.mk (Some f) 0%Z "" "" 0%Z) true.
Definition shared_baton (f : nat) : Baton.t := Baton.mk (Some f) 0%Z "" "" 0%Z.

(** An open connection with one shared operation pending and a close
    waiting at the front of the queue. *)
Definition waiting_world : World :=
  mkWorld (Some (mkDatabase true false 1 [close_record 3] (Some 7) Strong 2))
          [] [mkReq JobShared (Some (shared_baton 2)) false] 2%Z [] false.

(** * Further observations

    Worlds and observations used by the properties of the second part of
    the development. *)

(** What a successful open hands to the caller's completion action. *)
Definition success_report (args : list Value) : list Obs :=
  match open_callback args with
  | Some f => [Called f [Null]]
  | None => []
  end.

(** The world a successful open leaves behind, after its completion
    handler ran: open, unlocked, idle, weakly held. *)
Definition opened_world (args : list Value) (a : Answer) : World :=
  mkWorld (Some (mkDatabase true false 0 [] (Some (conn a)) Weak 0))
          [("filename", JsString (ToString (arg args 0)));
           ("mode", Int32 (requested_mode args))]
          [] 0%Z
          ([Dispatched JobOpen (Some (open_baton args));
            Engine_open (c_str (ToString (arg args 0)))
                        (Z.lor SQLITE_OPEN_FULLMUTEX (requested_mode args)) (rc a)]
             ++ success_report args ++ [Emitted [JsString "open"]])
          false.

(** The baton [Database::Close] builds, and the one a shared request
    carries. *)
Definition close_baton (callback : option nat) : Baton.t :=
  Baton.mk callback 0%Z "" "" 0%Z.

(** What a successful close hands to the caller's completion action. *)
Definition close_success_report (callback : option nat) : list Obs :=
  match callback with
  | Some f => [Called f [Null]]
  | None => []
  end.

(** How a rejected close is reported. *)
Definition close_failure_report (callback : option nat) (a : Answer) : Obs :=
  match callback with
  | Some f => Called f [EXCEPTION (errmsg a) (rc a)]
  | None => Emitted [JsString "error"; EXCEPTION (errmsg a) (rc a)]
  end.

(** What a request submitted to a permanently closed connection makes the
    host see. *)
Definition report_of (e : Event) : list Obs :=
  match e with
  | EvClose callback | EvSubmit callback => [closed_report (close_baton callback)]
  | _ => []
  end.

(** The shape of a permanently closed connection with nothing in flight;
    the object may have been destroyed since. *)
Definition closed (q : list Call.t) (lg : list Obs) (w : World) : Prop :=
  pool w = [] /\ log w = lg /\
  match db w with
  | None => True
  | Some d =>
    open d = false /\ locked d = true /\ handle d = None /\
    IsEmpty (handle_ d) = false /\ queue d = q
  end.

(** A connection right after a successful close. *)
Definition closed_world : World :=
  mkWorld (Some (mkDatabase false true 0 [] None Weak 0)) [] [] 0%Z [] false.




(** The closes handed to the worker pool so far. *)
Definition is_close_dispatch (o : Obs) : bool :=
  match o with Dispatched JobClose _ => true | _ => false end.

Definition close_dispatches (l : list Obs) : nat := count is_close_dispatch l.

(** The bookkeeping a constructed connection keeps: the event-loop marker
    counts the references held plus the finalizers in flight, and the
    connection is locked exactly when a close has been dispatched.  [k] is
    a lower bound on the closes dispatched. *)
Definition Balance (k : nat) (w : World) : Prop :=
  k <= close_dispatches (log w) /\
  close_dispatches (log w) <= 1 /\
  match db w with
  | Some d =>
    ev_refs w =
      (Z.of_nat (refs_ d) + Z.of_nat (count (is_job JobDestruct) (pool w)))%Z /\
    close_dispatches (log w) = b2n (locked d)
  | None => ev_refs w = 0%Z
  end.

(** [P] holds after an event, when the event is enabled and does not
    abort. *)
Definition carried (P : World -> Prop) (o : Outcome) : Prop :=
  match o with
  | Next w' => P w'
  | _ => True
  end.

(** [P] holds after a computation that returns, and the connection is
    still there. *)
Definition kept (P : World -> Prop) (r : Res unit) : Prop :=
  match r with
  | Ok _ w' => P w' /\ db w' <> None /\ collected w' = false
  | Abort _ => True
  end.

(** * Properties *)

(** ** [Database::New] *)

(** C10: called without [new], the constructor throws a [TypeError] and
    leaves the world exactly as it found it: no connection object, no open
    work dispatched, no property set, whatever the arguments. *)
Theorem C10_New_without_new_throws :
  forall (args : list Value) (w : World),
    New false args w =
    Ok (Thrown (TypeError "Use the new keyword to create new Database objects")) w.
Proof. intros args w. reflexivity. Qed.

Lemma c_str_idempotent (s : string) : c_str (c_str s) = c_str s.
Proof.
  induction s as [|c s IH]; [reflexivity|].
  cbn [c_str]. destruct (Ascii.eqb c "000") eqn:Hc; [reflexivity|].
  cbn [c_str]. rewrite Hc, IH. reflexivity.
Qed.

(** C9: for every construction the engine's open call receives the mode the
    caller asked for (argument 1 when it is an int32, read-write-create
    otherwise) OR'd with [SQLITE_OPEN_FULLMUTEX]; the path it receives is
    the file name up to its first NUL. *)
Theorem C9_open_mode :
  forall (args : list Value) (a : Answer),
    IsString (arg args 0) = true ->
    exists w,
      launch args [EvWork 0 a] = Next w /\
      filter is_engine_open (log w) =
      [Engine_open (c_str (ToString (arg args 0)))
                   (Z.lor SQLITE_OPEN_FULLMUTEX (requested_mode args)) (rc a)].
Proof.
  intros args [r msg h] Hs.
  destruct args as [|a0 rest]; [discriminate|].
  destruct a0; try discriminate.
  destruct rest as [|a1 rest].
  - cbv -[Z.eqb Z.lor c_str].
    destruct (r =? 0)%Z; cbv -[Z.lor c_str]; rewrite c_str_idempotent;
      eexists; split; reflexivity.
  - destruct a1;
      try (destruct rest as [|a2 rest]; [|destruct a2]);
      cbv -[Z.eqb Z.lor c_str];
      destruct (r =? 0)%Z; cbv -[Z.lor c_str]; rewrite c_str_idempotent;
      eexists; split; reflexivity.
Qed.

(** ** [Database::Schedule] *)

(** C7: [Schedule] makes exactly this case analysis.  On a permanently
    closed connection ([!open && locked]) the request fails at once with
    the "Database is closed" error, handed to its completion action or,
    without one, emitted as an "error" notification, and the connection
    (its queue included) is untouched.  Otherwise, if the connection is not
    open, or is locked, or the request is exclusive while [pending > 0],
    the record is appended to the queue.  Otherwise its work function runs
    immediately. *)
Theorem C7_Schedule_case_analysis :
  forall (w : World) (d : Database) (callback : EIO_Callback)
         (baton : Baton.t) (exclusive : bool),
    db w = Some d ->
    (open d = false /\ locked d = true ->
       Schedule callback baton exclusive w = Ok tt (add_log (closed_report baton) w))
    /\
    (~ (open d = false /\ locked d = true) ->
     open d = false \/ locked d = true \/ (exclusive = true /\ 0 < pending d) ->
       Schedule callback baton exclusive w =
       Ok tt (enqueue (Call.mk callback baton exclusive) d w))
    /\
    (open d = true -> locked d = false -> exclusive = false \/ pending d = 0 ->
       Schedule callback baton exclusive w = invoke callback baton w).
Proof.
  intros w d callback baton exclusive Hd.
  unfold Schedule, bind, get_db. rewrite Hd.
  repeat split.
  - intros [Ho Hl]. rewrite Ho, Hl. cbn.
    unfold closed_report. destruct (Baton.callback baton); reflexivity.
  - intros Hn Hq.
    assert (Hc : negb (open d) && locked d = false).
    { destruct (open d), (locked d); try reflexivity. exfalso. apply Hn. split; reflexivity. }
    assert (Hg : negb (open d) || locked d || (exclusive && (0 <? pending d)%nat) = true).
    { destruct Hq as [Hq|[Hq|[He Hp]]].
      - rewrite Hq. reflexivity.
      - rewrite Hq. apply orb_true_iff. left. apply orb_true_r.
      - subst exclusive. apply Nat.ltb_lt in Hp. rewrite Hp. apply orb_true_r. }
    rewrite Hc, Hg.
    unfold queue_push, modify, bind, get_db. rewrite Hd. reflexivity.
  - intros Ho Hl He.
    assert (Hg : negb (open d) || locked d || (exclusive && (0 <? pending d)%nat) = false).
    { rewrite Ho, Hl. destruct He as [He|He]; [subst exclusive; reflexivity|].
      rewrite He. apply andb_false_r. }
    rewrite Hg, Ho. reflexivity.
Qed.

(** An exclusive request on an open connection with one operation pending
    is queued. *)
Lemma C7_witness :
  db (mkWorld (Some (mkDatabase true false 1 [] (Some 7) Strong 1)) [] [] 0 [] false)
    = Some (mkDatabase true false 1 [] (Some 7) Strong 1) /\
  Schedule cb_EIO_BeginClose (shared_baton 3) true
    (mkWorld (Some (mkDatabase true false 1 [] (Some 7) Strong 1)) [] [] 0 [] false)
  = Ok tt (enqueue (close_record 3) (mkDatabase true false 1 [] (Some 7) Strong 1)
     (mkWorld (Some (mkDatabase true false 1 [] (Some 7) Strong 1)) [] [] 0 [] false)).
Proof.
  split; [reflexivity|].
  apply (C7_Schedule_case_analysis
           (mkWorld (Some (mkDatabase true false 1 [] (Some 7) Strong 1)) [] [] 0 [] false)
           (mkDatabase true false 1 [] (Some 7) Strong 1)
           cb_EIO_BeginClose (shared_baton 3) true eq_refl).
  - intros [H _]. discriminate H.
  - right. right. split; [reflexivity|]. simpl. lia.
Defined.

(** ** Counting lemmas *)
Section CountFacts.
Context {A : Type} (f : A -> bool).

Lemma count_app (l1 l2 : list A) : count f (l1 ++ l2) = count f l1 + count f l2.
Proof. induction l1 as [|x l1 IH]; simpl; [reflexivity|]. rewrite IH. lia. Qed.

Lemma count_snoc (l : list A) (x : A) : count f (l ++ [x]) = count f l + b2n (f x).
Proof. rewrite count_app. simpl. lia. Qed.

Lemma count_remove_nth (l : list A) (i : nat) (x : A) :
  nth_error l i = Some x -> count f l = count f (remove_nth i l) + b2n (f x).
Proof.
  revert i. induction l as [|y l IH]; intros [|i] H; simpl in *; try discriminate.
  - injection H as ->. lia.
  - rewrite (IH i H). lia.
Qed.

Lemma count_replace_nth (l : list A) (i : nat) (x y : A) :
  nth_error l i = Some x ->
  count f (replace_nth i y l) + b2n (f x) = count f l + b2n (f y).
Proof.
  revert i. induction l as [|z l IH]; intros [|i] H; simpl in *; try discriminate.
  - injection H as ->. lia.
  - specialize (IH i H). lia.
Qed.
End CountFacts.

Lemma count_any_nil (p : list eio_req) : count any_req p = 0 -> p = [].
Proof. destruct p; simpl; [reflexivity|discriminate]. Qed.

Lemma pool_facts (p : list eio_req) :
  count (undone JobOpen) p + count (finished JobOpen) p = count (is_job JobOpen) p /\
  count (undone JobClose) p + count (finished JobClose) p = count (is_job JobClose) p /\
  count (undone JobDestruct) p + count (finished JobDestruct) p
    = count (is_job JobDestruct) p /\
  count (finished_ok JobOpen) p <= count (finished JobOpen) p /\
  count (finished_ok JobClose) p <= count (finished JobClose) p /\
  count holds_ref p + count (is_job JobDestruct) p = count any_req p /\
  count (is_job JobOpen) p + count (is_job JobClose) p + count (is_job JobShared) p
    = count holds_ref p.
Proof.
  induction p as [|[j b dn] p IH]; simpl; [lia|].
  unfold undone, finished, finished_ok, is_job, holds_ref, any_req, is_job in *.
  simpl.
  destruct j, dn; simpl;
    try destruct (Baton.status (baton_of _) =? SQLITE_OK)%Z; simpl; lia.
Qed.

Lemma log_facts (l : list Obs) :
  accepted_closes l <= close_calls l /\
  count is_close_of_null l <= close_calls l.
Proof.
  unfold accepted_closes, close_calls.
  induction l as [|o l IH]; simpl; [lia|].
  destruct o as [| | | |[h|] r]; simpl; try destruct (r =? SQLITE_OK)%Z; simpl; lia.
Qed.


Ltac mred :=
  cbv [bind ret get_db put_db modify assert observe set_db set_pool set_ev_refs
       set_open set_locked set_pending set_queue set_handle set_handle_ set_refs_
       TRY_CATCH_CALL EMIT_EVENT ev_ref ev_unref eio_custom MakeWeak Ref Unref Wrap
       EIO_BeginClose BeginShared invoke queue_empty queue_pop queue_push
       Schedule Close Submit EIO_Open EIO_AfterOpen EIO_Close EIO_AfterClose
       Destruct EIO_Destruct EIO_AfterDestruct AfterShared delete_db
       execute finish outcome mark_collected reachable_from_js collectible
       baton_of no_baton args_of persistent arg nth
       db this_ pool ev_refs log collected
       open locked pending queue handle handle_ refs_
       job data done
       Baton.callback Baton.status Baton.message Baton.filename Baton.mode
       Baton.set_status Baton.set_message
       Call.callback Call.baton Call.exclusive
       rc errmsg conn
       IsEmpty IsWeak tl];
  change (0 =? SQLITE_OK)%Z with true;
  cbn [Nat.eqb negb andb orb firstn].

Ltac case_if :=
  match goal with
  | |- context [if ?c then _ else _] =>
    lazymatch c with true => fail | false => fail | _ => idtac end;
    first
      [ is_var c; destruct c
      | match c with
        | context [?x] =>
          is_var x;
          lazymatch type of x with
          | bool => destruct x
          | Persistent => destruct x
          end
        end
      | match c with
        | context [Z.eqb ?a ?b] => destruct (Z.eqb a b) eqn:?
        | context [Nat.eqb ?a ?b] => destruct (Nat.eqb a b) eqn:?
        | context [Nat.ltb ?a ?b] => destruct (Nat.ltb a b) eqn:?
        end
      | destruct c eqn:? ]
  | |- context [match ?x with _ => _ end] => is_var x; destruct x
  end.

Ltac mrun := repeat (mred; try case_if).

Ltac bool_hyps :=
  repeat match goal with
  | H : ?c = true |- _ =>
    lazymatch c with true => fail | false => fail | _ => idtac end;
    match goal with
    | H' : context [c] |- _ =>
      lazymatch H' with H => fail | _ => rewrite H in H' end
    | |- context [c] => rewrite H
    end
  | H : ?c = false |- _ =>
    lazymatch c with true => fail | false => fail | _ => idtac end;
    match goal with
    | H' : context [c] |- _ =>
      lazymatch H' with H => fail | _ => rewrite H in H' end
    | |- context [c] => rewrite H
    end
  end.

Ltac count_cbn :=
  cbn [b2n count is_job holds_ref undone finished finished_ok any_req Job_eqb
       is_close_call stray_close is_engine_open is_open_ok is_engine_close
       is_close_ok is_close_of_null job done data negb andb baton_of no_baton
       Baton.status
       Call.callback Call.exclusive] in *;
  change (0 =? SQLITE_OK)%Z with true in *;
  cbn [b2n andb] in *.

Ltac case_vars :=
  repeat match goal with
  | |- context [match ?x with _ => _ end] => is_var x; destruct x
  | |- context [b2n ?c] =>
    lazymatch c with true => fail | false => fail | _ => destruct c eqn:? end
  end.

Ltac count_simpl :=
  rewrite ?count_snoc in *;
  count_cbn; bool_hyps; count_cbn; case_vars; count_cbn.

Ltac use_inv HI :=
  let Hacc := fresh "Hacc" in let Hnull := fresh "Hnull" in
  let HL := fresh "HL" in
  destruct HI as (Hacc & Hnull & HL);
  cbv [db log pool collected] in Hacc, Hnull, HL;
  destruct HL as [L1 L2 L3 L4 L5 L5' L6 L7 L8 L9 L10 L11 L12 L13 L14 L15 L16];
  unfold accepted_closes, close_calls, opened in *;
  cbv [db log pool collected open locked pending queue handle handle_ refs_
       has_handle IsEmpty IsWeak] in *.

Lemma Inv_intro (w : World) (d : Database) :
  db w = Some d ->
  (accepted_closes (log w) <= 1 /\
  count is_close_of_null (log w) = 0%nat /\
  IsEmpty (handle_ d) = false /\
  (IsWeak (handle_ d) = true <-> refs_ d = 0%nat) /\
  (count holds_ref (pool w) + count is_close_call (queue d) <= refs_ d) /\
  count stray_close (queue d) = 0%nat /\
  (collected w = true ->
    count (is_job JobDestruct) (pool w) = 1%nat /\ refs_ d = 0%nat) /\
  (collected w = false -> count (is_job JobDestruct) (pool w) = 0%nat) /\
  count (is_job JobClose) (pool w) <= 1 /\
  (1 <= count (is_job JobClose) (pool w) -> locked d = true /\ open d = true) /\
  count (is_job JobOpen) (pool w) <= 1 /\
  (1 <= count (is_job JobOpen) (pool w) -> open d = false) /\
  (1 <= count (undone JobOpen) (pool w) ->
    close_calls (log w) = 0%nat /\ count is_open_ok (log w) = 0%nat) /\
  (has_handle d = true -> accepted_closes (log w) = 0%nat) /\
  (collected w = false -> open d = true ->
    count (finished_ok JobClose) (pool w) = 0%nat -> has_handle d = true) /\
  (1 <= count (finished_ok JobOpen) (pool w) -> has_handle d = true) /\
  (1 <= count (undone JobDestruct) (pool w) -> has_handle d = true) /\
  (1 <= count (finished JobDestruct) (pool w) -> 1 <= close_calls (log w)) /\
  (opened (log w) -> has_handle d = false -> 1 <= close_calls (log w))) ->
  Inv w.
Proof.
  intros Hd H. unfold Inv. rewrite Hd.
  split; [tauto|]. split; [tauto|]. constructor; tauto.
Qed.

Lemma Inv_intro_deleted (w : World) :
  db w = None ->
  (accepted_closes (log w) <= 1 /\
   count is_close_of_null (log w) = 0%nat /\
   count any_req (pool w) = 0%nat /\
   (opened (log w) -> 1 <= close_calls (log w))) ->
  Inv w.
Proof.
  intros Hd (H1 & H2 & H3 & H4). unfold Inv. rewrite Hd.
  repeat split; try assumption. now apply count_any_nil.
Qed.

Ltac solve_inv :=
  first [ eapply Inv_intro; [reflexivity|]
        | eapply Inv_intro_deleted; [reflexivity|] ];
  cbv [db log pool collected open locked pending queue handle handle_ refs_
       has_handle IsEmpty IsWeak];
  unfold accepted_closes, close_calls, opened in *;
  count_simpl; lia.

Lemma Process_loop_S (fuel : nat) :
  Process_loop (S fuel) =
  (d <- get_db ;;
   if open d && negb (locked d) && negb (queue_empty d) then
     match queue d with
     | [] => ret tt
     | call :: _ =>
       if Call.exclusive call && (0 <? pending d)%nat then ret tt
       else
         invoke (Call.callback call) (Call.baton call) ;;
         queue_pop ;;
         Process_loop fuel
     end
   else ret tt).
Proof. reflexivity. Qed.

Lemma Process_loop_Inv (fuel : nat) :
  forall (w : World) (d : Database),
    db w = Some d -> collected w = false -> Inv w ->
    List.length (queue d) < fuel ->
    exists w', Process_loop fuel w = Ok tt w' /\ Inv w' /\
               db w' <> None /\ collected w' = false.
Proof.
  induction fuel as [|fuel IH]; intros w d Hd Hc HI Hlen; [lia|].
  destruct w as [dbo th p ev lg col]. simpl in Hd, Hc. subst dbo col.
  destruct d as [o l pe q h h_ r].
  rewrite Process_loop_S.
  destruct o, l, q as [|[cb b ex] q']; mred;
    try (eexists; split; [reflexivity|]; split; [exact HI|]; split; [discriminate|reflexivity]).
  simpl in Hlen.
  destruct cb, ex, pe as [|pe], h_; mrun.
  all: try (eexists; split; [reflexivity|]; split; [exact HI|]; split; [discriminate|reflexivity]).
  all: try (exfalso; use_inv HI; count_simpl; lia).
  all: match goal with
       | |- exists w', Process_loop _ ?W = _ /\ _ =>
         refine (IH W _ eq_refl eq_refl _ _); [|simpl; lia]
       end.
  all: pose proof (pool_facts p) as Hp; pose proof (log_facts lg) as Hlg.
  all: use_inv HI.
  all: solve_inv.
Qed.

Lemma Process_Inv (w : World) (d : Database) :
  db w = Some d -> collected w = false -> Inv w ->
  exists w', Process w = Ok tt w' /\ Inv w' /\ db w' <> None /\ collected w' = false.
Proof.
  intros Hd Hc HI.
  unfold Process, bind, get_db. rewrite Hd.
  destruct (negb (open d) && locked d && negb (queue_empty d)) eqn:E.
  - destruct w as [dbo th p ev lg col]. simpl in Hd, Hc. subst dbo col.
    destruct d as [o l pe q h h_ r].
    mrun. eexists. split; [reflexivity|]. split; [|split; [discriminate|reflexivity]].
    pose proof (pool_facts p) as Hp; pose proof (log_facts lg) as Hlg.
    use_inv HI. solve_inv.
  - apply (Process_loop_Inv _ w d Hd Hc HI). lia.
Qed.


Ltac absurd_inv := exfalso; count_simpl; lia.

Ltac close_goal :=
  lazymatch goal with
  | |- preserved (Next _) => cbv [preserved]; solve_inv
  | |- preserved (Crash _) => cbv [preserved]; absurd_inv
  | |- preserved Disabled => exact I
  end.

Lemma Close_Inv (callback : option nat) (w : World) :
  Inv w -> preserved (step (EvClose callback) w).
Proof.
  intros HI. unfold step, reachable_from_js.
  destruct w as [[[o l pe q h h_ r]|] th p ev lg [|]]; cbv [db collected negb]; try exact I.
  pose proof (pool_facts p) as Hp; pose proof (log_facts lg) as Hlg.
  use_inv HI.
  mrun.
  all: close_goal.
Qed.

Lemma Submit_Inv (callback : option nat) (w : World) :
  Inv w -> preserved (step (EvSubmit callback) w).
Proof.
  intros HI. unfold step, reachable_from_js.
  destruct w as [[[o l pe q h h_ r]|] th p ev lg [|]]; cbv [db collected negb]; try exact I.
  pose proof (pool_facts p) as Hp; pose proof (log_facts lg) as Hlg.
  use_inv HI.
  mrun.
  all: close_goal.
Qed.

Ltac pose_replace H :=
  match type of H with
  | nth_error ?p ?i = Some ?r =>
    match goal with
    | |- context [replace_nth i ?r' p] =>
      pose proof (count_replace_nth holds_ref p i r r' H);
      pose proof (count_replace_nth any_req p i r r' H);
      pose proof (count_replace_nth (is_job JobOpen) p i r r' H);
      pose proof (count_replace_nth (is_job JobClose) p i r r' H);
      pose proof (count_replace_nth (is_job JobDestruct) p i r r' H);
      pose proof (count_replace_nth (is_job JobShared) p i r r' H);
      pose proof (count_replace_nth (undone JobOpen) p i r r' H);
      pose proof (count_replace_nth (undone JobClose) p i r r' H);
      pose proof (count_replace_nth (undone JobDestruct) p i r r' H);
      pose proof (count_replace_nth (finished JobOpen) p i r r' H);
      pose proof (count_replace_nth (finished JobClose) p i r r' H);
      pose proof (count_replace_nth (finished JobDestruct) p i r r' H);
      pose proof (count_replace_nth (finished_ok JobOpen) p i r r' H);
      pose proof (count_replace_nth (finished_ok JobClose) p i r r' H);
      pose proof (pool_facts (replace_nth i r' p));
      let p' := fresh "p'" in
      set (p' := replace_nth i r' p) in *; clearbody p'; clear H
    end
  end.

Lemma Work_Inv (i : nat) (a : Answer) (w : World) :
  Inv w -> preserved (step (EvWork i a) w).
Proof.
  intros HI. unfold step.
  destruct (nth_error (pool w) i) as [[j b dn]|] eqn:Hnth; [|exact I].
  destruct dn; [exact I|]. cbv [done].
  destruct w as [[[o l pe q h h_ r]|] th p ev lg col].
  2:{ destruct HI as (_ & _ & Hp & _). simpl in Hp, Hnth. subst p.
      destruct i; discriminate. }
  cbv [pool] in Hnth.
  pose proof (pool_facts p) as Hp; pose proof (log_facts lg) as Hlg.
  use_inv HI.
  destruct a as [rc msg c].
  destruct j; mrun.
  all: pose_replace Hnth.
  all: close_goal.
Qed.

Ltac pose_remove H :=
  match type of H with
  | nth_error ?p ?i = Some ?r =>
    pose proof (count_remove_nth holds_ref p i r H);
    pose proof (count_remove_nth any_req p i r H);
    pose proof (count_remove_nth (is_job JobOpen) p i r H);
    pose proof (count_remove_nth (is_job JobClose) p i r H);
    pose proof (count_remove_nth (is_job JobDestruct) p i r H);
    pose proof (count_remove_nth (is_job JobShared) p i r H);
    pose proof (count_remove_nth (undone JobOpen) p i r H);
    pose proof (count_remove_nth (undone JobClose) p i r H);
    pose proof (count_remove_nth (undone JobDestruct) p i r H);
    pose proof (count_remove_nth (finished JobOpen) p i r H);
    pose proof (count_remove_nth (finished JobClose) p i r H);
    pose proof (count_remove_nth (finished JobDestruct) p i r H);
    pose proof (count_remove_nth (finished_ok JobOpen) p i r H);
    pose proof (count_remove_nth (finished_ok JobClose) p i r H);
    pose proof (pool_facts (remove_nth i p));
    pose proof (count_any_nil (remove_nth i p));
    let p' := fresh "p'" in
    set (p' := remove_nth i p) in *; clearbody p'; clear H
  end.

Ltac via_Process :=
  lazymatch goal with
  | |- context [Process ?W] =>
    let HW := fresh "HW" in
    assert (HW : Inv W) by solve_inv;
    let w' := fresh "w'" in
    let Hrun := fresh "Hrun" in
    let HI' := fresh "HI'" in
    destruct (Process_Inv W _ eq_refl eq_refl HW) as (w' & Hrun & HI' & _ & _);
    rewrite Hrun; exact HI'
  end.

Lemma After_Inv (i : nat) (w : World) :
  Inv w -> preserved (step (EvAfter i) w).
Proof.
  intros HI. unfold step.
  destruct (nth_error (pool w) i) as [[j b dn]|] eqn:Hnth; [|exact I].
  destruct dn; [|exact I]. cbv [done].
  destruct w as [[[o l pe q h h_ r]|] th p ev lg col].
  2:{ destruct HI as (_ & _ & Hp & _). simpl in Hp, Hnth. subst p.
      destruct i; discriminate. }
  cbv [pool] in Hnth.
  pose proof (pool_facts p) as Hp; pose proof (log_facts lg) as Hlg.
  use_inv HI.
  pose_remove Hnth.
  destruct j, col; count_cbn; try (exfalso; lia).
  1,2,4: destruct r as [|r]; [exfalso; lia|];
       destruct h_; try (exfalso; lia).
  1: destruct o; [exfalso; lia|].
  2: destruct o, l; try (exfalso; lia).
  all: mrun.
  all: try solve [close_goal].
  all: via_Process.
Qed.

Lemma GC_Inv (w : World) : Inv w -> preserved (step EvGC w).
Proof.
  intros HI. unfold step, collectible.
  destruct w as [[[o l pe q h h_ r]|] th p ev lg col]; cbv [db collected handle_];
    [|exact I].
  destruct h_, col; cbv [IsWeak andb negb]; try exact I.
  pose proof (pool_facts p) as Hp; pose proof (log_facts lg) as Hlg.
  use_inv HI.
  mrun.
  all: close_goal.
Qed.

Lemma step_Inv (e : Event) (w : World) : Inv w -> preserved (step e w).
Proof.
  destruct e.
  - apply Close_Inv.
  - apply Submit_Inv.
  - apply Work_Inv.
  - apply After_Inv.
  - apply GC_Inv.
Qed.

Lemma run_Inv (evs : list Event) :
  forall w, Inv w -> preserved (run evs w).
Proof.
  induction evs as [|e evs IH]; intros w HI; simpl; [exact HI|].
  pose proof (step_Inv e w HI) as Hs.
  destruct (step e w) as [w'| |]; simpl in *; [|contradiction|exact I].
  apply IH. exact Hs.
Qed.

Lemma New_shape (args : list Value) :
  (IsString (arg args 0) = false /\
   New true args empty_world =
   Ok (Thrown (TypeError "Argument 0 must be a string")) empty_world) \/
  (IsString (arg args 0) = true /\
   New true args empty_world =
   Ok (Returned This) (opening_world args (open_baton args))).
Proof.
  destruct args as [|a0 rest]; [left; split; reflexivity|].
  destruct (IsString (arg (a0 :: rest) 0)) eqn:Hs;
    [right|left]; (split; [reflexivity|]);
    unfold New; cbn [negb List.length Nat.leb orb]; rewrite Hs; cbn [negb];
    [|reflexivity].
  unfold opening_world, open_baton, requested_mode, open_callback, default_mode.
  destruct rest as [|a1 rest]; [reflexivity|].
  destruct a1; try (destruct rest as [|a2 rest]; [|destruct a2]); reflexivity.
Qed.

Lemma constructed_Inv (args : list Value) : preserved (constructed args).
Proof.
  unfold constructed.
  destruct (New_shape args) as [[_ ->]|[_ ->]]; cbv [outcome preserved].
  - apply Inv_intro_deleted; [reflexivity|]. cbv. repeat split; lia.
  - eapply Inv_intro; [reflexivity|].
    cbv -[Nat.le]. repeat split; intros; try lia; try discriminate.
Qed.

Lemma launch_Inv (args : list Value) (evs : list Event) :
  preserved (launch args evs).
Proof.
  unfold launch. pose proof (constructed_Inv args) as Hc.
  destruct (constructed args) as [w| |]; simpl in *; try assumption.
  apply run_Inv. exact Hc.
Qed.


(** ** Claims about the whole life of a connection *)

(** An exclusive record at the front of the queue holds the drain back while
    shared operations are pending. *)
Lemma Process_blocked (w : World) (d : Database) (c : Call.t) (rest : list Call.t) :
  db w = Some d -> open d = true -> locked d = false ->
  queue d = c :: rest -> Call.exclusive c = true -> 0 < pending d ->
  Process w = Ok tt w.
Proof.
  intros Hd Ho Hl Hq He Hp.
  unfold Process, bind, get_db. rewrite Hd, Ho. cbn [negb andb].
  rewrite Process_loop_S. unfold bind, get_db, queue_empty. rewrite Hd, Ho, Hl, Hq, He.
  apply Nat.ltb_lt in Hp. rewrite Hp. reflexivity.
Qed.

(** C6: [EIO_BeginClose] only ever runs on an open, unlocked connection with
    nothing pending.  Its three assertions abort the model when they fail;
    no sequence of events after any construction makes the connection abort,
    and whenever [EIO_BeginClose] returns, the state it started from was
    open, unlocked and idle.  While shared operations are pending, an
    exclusive record at the queue front is held there by the drain. *)
Theorem C6_close_begins_idle :
  (forall (baton : Baton.t) (w w' : World),
      EIO_BeginClose baton w = Ok tt w' ->
      exists d, db w = Some d /\ open d = true /\ locked d = false /\ pending d = 0) /\
  (forall (args : list Value) (evs : list Event) (e : Err),
      launch args evs <> Crash e) /\
  (forall (w : World) (d : Database) (c : Call.t) (rest : list Call.t),
      db w = Some d -> open d = true -> locked d = false ->
      queue d = c :: rest -> Call.exclusive c = true -> 0 < pending d ->
      Process w = Ok tt w).
Proof.
  split; [|split].
  - intros baton w w' H. unfold EIO_BeginClose, bind, get_db, assert in H.
    destruct (db w) as [d|]; [|discriminate].
    exists d. destruct (open d); [|discriminate].
    destruct (locked d); [discriminate|]. cbn [negb] in H.
    destruct (Nat.eqb_spec (pending d) 0) as [Hp|Hp]; [|discriminate].
    repeat split; assumption.
  - intros args evs e H. pose proof (launch_Inv args evs) as HI.
    rewrite H in HI. exact HI.
  - exact Process_blocked.
Qed.

(** When the engine accepted every close call, the calls are the accepted
    ones. *)
Lemma all_accepted (l : list Obs) :
  forallb accepted_obs l = true -> close_calls l = accepted_closes l.
Proof.
  unfold close_calls, accepted_closes.
  induction l as [|o l IH]; simpl; [reflexivity|].
  intros H. apply andb_true_iff in H. destruct H as [Ho Hl].
  rewrite (IH Hl). destruct o; simpl in *; try reflexivity.
  rewrite Ho. reflexivity.
Qed.

(** C5 (amended): across every interleaving of close requests, worker
    steps, completions and finalization, the engine accepts at most one
    close call, no close call is made on an absent handle, and once the
    connection object has been destroyed after a successful open at least
    one close call has reached the engine.  When the engine accepted every
    close call it received, exactly one reached it. *)
Theorem C5_handle_closed_once :
  forall (args : list Value) (evs : list Event) (w : World),
    launch args evs = Next w ->
    accepted_closes (log w) <= 1 /\
    count is_close_of_null (log w) = 0 /\
    (db w = None -> opened (log w) -> 1 <= close_calls (log w)) /\
    (forallb accepted_obs (log w) = true ->
       close_calls (log w) <= 1 /\
       (db w = None -> opened (log w) -> close_calls (log w) = 1)).
Proof.
  intros args evs w H. pose proof (launch_Inv args evs) as HI.
  rewrite H in HI. destruct HI as (Hacc & Hnull & HL).
  assert (Hdel : db w = None -> opened (log w) -> 1 <= close_calls (log w)).
  { intros Hd. rewrite Hd in HL. apply HL. }
  repeat split; try assumption.
  - rewrite (all_accepted _ H0). exact Hacc.
  - intros Hd Ho. specialize (Hdel Hd Ho).
    rewrite (all_accepted _ H0) in *. lia.
Qed.

(** A connection that is opened and then collected without an explicit
    close is closed once by the finalizer. *)
Lemma C5_witness :
  exists w,
    launch test_db [EvWork 0 accepted; EvAfter 0; EvGC; EvWork 0 accepted; EvAfter 0]
      = Next w /\
    db w = None /\ close_calls (log w) = 1.
Proof.
  eexists. split; [vm_compute; reflexivity|]. split; [reflexivity|].
  eapply (C5_handle_closed_once test_db
            [EvWork 0 accepted; EvAfter 0; EvGC; EvWork 0 accepted; EvAfter 0]).
  - vm_compute. reflexivity.
  - reflexivity.
  - reflexivity.
  - unfold opened. vm_compute. lia.
Defined.

(** C5 as stated fails: when the engine rejects the explicit close, the
    handle stays present and the finalizer issues a second close call on
    the same handle. *)
Lemma C5_counterexample :
  exists w,
    launch test_db [EvWork 0 accepted; EvAfter 0; EvClose (Some 2);
                    EvWork 0 rejected; EvAfter 0; EvGC; EvWork 0 accepted]
      = Next w /\
    filter is_engine_close (log w) =
      [Engine_close (Some 7) SQLITE_BUSY; Engine_close (Some 7) SQLITE_OK] /\
    close_calls (log w) = 2.
Proof. eexists. split; [vm_compute; reflexivity|]. split; reflexivity. Qed.

(** ** After a failed open *)

Lemma unopened_step (e : Event) (q : list Call.t) (lg : list Obs) (w w' : World) :
  unopened q lg w -> step e w = Next w' -> unopened (q ++ record_of e) lg w'.
Proof.
  intros (Hp & Hl & Hd) Hs.
  destruct w as [[[o l pe qu h h_ r]|] th p ev lg0 col];
    cbv [pool log db open locked handle handle_ queue] in Hp, Hl, Hd; subst p lg0.
  - destruct Hd as (-> & -> & -> & He & ->).
    destruct e as [cb|cb|i a|i|]; cbn [record_of]; unfold step in Hs;
      cbv [pool nth_error] in Hs;
      try (destruct i; discriminate Hs).
    + destruct col, cb, h_; try discriminate He; revert Hs; mrun; intros Hs;
        try discriminate Hs; injection Hs as <-;
        repeat split; reflexivity.
    + destruct col, cb, h_; try discriminate He; revert Hs; mrun; intros Hs;
        try discriminate Hs; injection Hs as <-;
        repeat split; reflexivity.
    + destruct col, h_; try discriminate He; revert Hs; mrun; intros Hs;
        try discriminate Hs; injection Hs as <-;
        repeat split; reflexivity.
  - destruct e as [cb|cb|i a|i|]; unfold step in Hs; cbv in Hs;
      try discriminate Hs; destruct i; discriminate Hs.
Qed.

Lemma unopened_run (evs : list Event) :
  forall (q : list Call.t) (lg : list Obs) (w w' : World),
    unopened q lg w -> run evs w = Next w' ->
    unopened (q ++ flat_map record_of evs) lg w'.
Proof.
  induction evs as [|e evs IH]; intros q lg w w' Hu Hr; simpl in *.
  - injection Hr as <-. rewrite app_nil_r. exact Hu.
  - destruct (step e w) as [w1| |] eqn:Hs; try discriminate Hr.
    rewrite app_assoc. apply (IH _ _ w1 w'); [|exact Hr].
    apply (unopened_step e q lg w w1 Hu Hs).
Qed.

Lemma launch_constructed (args : list Value) (evs : list Event) :
  IsString (arg args 0) = true ->
  launch args evs = run evs (opening_world args (open_baton args)).
Proof.
  intros Hs. unfold launch, constructed.
  destruct (New_shape args) as [[Hf _]|[_ ->]]; [congruence|reflexivity].
Qed.

Lemma failed_open_run (args : list Value) (a : Answer) :
  IsString (arg args 0) = true ->
  rc a <> SQLITE_OK ->
  launch args [EvWork 0 a; EvAfter 0] = Next (failed_world args a).
Proof.
  destruct a as [r msg c]. intros Hs Hrc. cbv [rc] in Hrc.
  apply Z.eqb_neq in Hrc.
  rewrite (launch_constructed _ _ Hs).
  unfold failed_world, open_failure_report, opening_world, open_baton.
  destruct (open_callback args) as [f|];
    do 3 (cbv -[Z.eqb Z.lor requested_mode ToString arg SQLITE_OK
                SQLITE_OPEN_FULLMUTEX c_str];
          rewrite ?Hrc);
    rewrite c_str_idempotent; reflexivity.
Qed.

(** C4: the engine cannot open [test.db].  The completion action receives
    the engine's error and no "open" notification fires, but the
    connection is left unopened and unlocked, which is not the state
    [Schedule] takes for the end of a connection's life: whatever is
    requested afterwards is appended to the queue, and nothing more is
    reported or dispatched.  A [close] is queued with the reference and the
    event-loop mark it took; the drain leaves it there and the wrapper can
    no longer be collected. *)
Theorem C4_failed_open_is_not_closed :
  exists w0 w1 d0 d1,
    launch test_db [EvWork 0 cannot_open; EvAfter 0] = Next w0 /\
    db w0 = Some d0 /\
    log w0 =
      [Dispatched JobOpen (Some (open_baton test_db));
       Engine_open "test.db" 65542 SQLITE_CANTOPEN;
       Called 1 [Error "unable to open database file" SQLITE_CANTOPEN]] /\
    open d0 = false /\ locked d0 = false /\
    refs_ d0 = 0 /\ handle_ d0 = Weak /\ ev_refs w0 = 0%Z /\
    (forall (evs : list Event) (w' : World),
        run evs w0 = Next w' ->
        log w' = log w0 /\ pool w' = [] /\
        forall d', db w' = Some d' ->
          open d' = false /\ locked d' = false /\
          queue d' = flat_map record_of evs) /\
    step (EvClose (Some 2)) w0 = Next w1 /\
    db w1 = Some d1 /\
    queue d1 = [close_record 2] /\
    refs_ d1 = 1 /\ handle_ d1 = Strong /\ ev_refs w1 = 1%Z /\
    Process w1 = Ok tt w1 /\
    step EvGC w1 = Disabled.
Proof.
  exists (failed_world test_db cannot_open). do 3 eexists.
  split; [apply (failed_open_run test_db cannot_open eq_refl); discriminate|].
  split; [reflexivity|]. split; [reflexivity|].
  do 5 (split; [reflexivity|]).
  split.
  - intros evs w' Hr.
    assert (Hu : unopened [] (log (failed_world test_db cannot_open))
                          (failed_world test_db cannot_open))
      by (repeat split; reflexivity).
    destruct (unopened_run evs _ _ _ _ Hu Hr) as (Hp & Hl & Hd).
    split; [exact Hl|]. split; [exact Hp|].
    intros d' Hd'. rewrite Hd' in Hd. tauto.
  - split; [vm_compute; reflexivity|].
    do 5 (split; [reflexivity|]).
    split; vm_compute; reflexivity.
Qed.

(** ** Order of dispatch *)

Lemma filter_snoc {A : Type} (f : A -> bool) (l : list A) (x : A) :
  filter f (l ++ [x]) = (filter f l ++ (if f x then [x] else []))%list.
Proof. rewrite filter_app. reflexivity. Qed.

Lemma Process_loop_prefix (fuel : nat) :
  forall (w : World) (d : Database),
    db w = Some d ->
    IsEmpty (handle_ d) = false ->
    count stray_close (queue d) = 0 ->
    List.length (queue d) < fuel ->
    exists (n : nat) (w' : World) (d' : Database),
      Process_loop fuel w = Ok tt w' /\
      db w' = Some d' /\
      queue d' = skipn n (queue d) /\
      filter is_dispatch (log w') =
        (filter is_dispatch (log w) ++ map dispatch_of (firstn n (queue d)))%list.
Proof.
  induction fuel as [|fuel IH]; intros w d Hd He Hs Hlen; [lia|].
  destruct w as [dbo th p ev lg col]. cbv [db] in Hd. subst dbo.
  destruct d as [o l pe q h h_ r].
  cbv [handle_ queue] in He, Hs, Hlen.
  rewrite Process_loop_S.
  destruct o, l, q as [|[cb b ex] q']; mred;
    try (exists 0; eexists; eexists; split; [reflexivity|];
         split; [reflexivity|]; split; [reflexivity|];
         cbn [firstn map]; rewrite app_nil_r; reflexivity).
  cbn [List.length] in Hlen.
  cbn [count stray_close is_close_call Call.callback Call.exclusive] in Hs.
  destruct cb, ex, pe as [|pe], h_; try discriminate He;
    cbn [b2n negb andb] in Hs; try discriminate Hs; mrun;
    try (exfalso; lia);
    try (exists 0; eexists; eexists; split; [reflexivity|];
         split; [reflexivity|]; split; [reflexivity|];
         cbn [firstn map]; rewrite app_nil_r; reflexivity).
  all: match goal with
       | |- context [Process_loop _ ?W] =>
         destruct (IH W _ eq_refl eq_refl Hs ltac:(cbn; lia))
           as (n & w' & d' & Hrun & Hd' & Hq & Hlog)
       end.
  all: exists (S n), w', d'; split; [exact Hrun|]; split; [exact Hd'|];
       split; [exact Hq|]; cbv [log] in Hlog; rewrite Hlog; rewrite filter_snoc;
       cbn [is_dispatch firstn map dispatch_of Call.callback Call.baton];
       rewrite <- app_assoc; reflexivity.
Qed.

Lemma Process_prefix (w : World) (d : Database) :
  db w = Some d ->
  IsEmpty (handle_ d) = false ->
  count stray_close (queue d) = 0 ->
  exists (n : nat) (w' : World) (d' : Database),
    Process w = Ok tt w' /\
    db w' = Some d' /\
    queue d' = skipn n (queue d) /\
    filter is_dispatch (log w') =
      (filter is_dispatch (log w) ++ map dispatch_of (firstn n (queue d)))%list.
Proof.
  intros Hd He Hs. unfold Process, bind, get_db. rewrite Hd.
  destruct (negb (open d) && locked d && negb (queue_empty d)).
  - exists 0. eexists. exists d. split; [reflexivity|].
    destruct w as [dbo th p ev lg col]; cbv [db] in Hd; subst dbo.
    split; [reflexivity|]. split; [reflexivity|].
    cbv [log]. rewrite filter_snoc. cbn. rewrite !app_nil_r. reflexivity.
  - apply Process_loop_prefix; try assumption. lia.
Qed.

Lemma Schedule_shared_immediate (w : World) (d : Database)
      (callback : EIO_Callback) (baton : Baton.t) :
  db w = Some d -> open d = true -> locked d = false ->
  Schedule callback baton false w = invoke callback baton w.
Proof.
  intros Hd Ho Hl. unfold Schedule, bind, get_db. rewrite Hd, Ho, Hl. reflexivity.
Qed.

(** C1 (amended): queued records drain in submission order: a drain
    dispatches a prefix of the queue, in order, and keeps the rest; while an
    exclusive record waits at the queue front because operations are
    pending, the drain dispatches nothing, so no queued record overtakes
    it.  A shared record submitted while the connection is open and
    unlocked is not queued: its work runs at once, whatever is waiting. *)
Theorem C1_queue_drains_in_order :
  (forall (w : World) (d : Database),
      db w = Some d ->
      IsEmpty (handle_ d) = false ->
      count stray_close (queue d) = 0 ->
      exists (n : nat) (w' : World) (d' : Database),
        Process w = Ok tt w' /\
        db w' = Some d' /\
        queue d' = skipn n (queue d) /\
        filter is_dispatch (log w') =
          (filter is_dispatch (log w) ++ map dispatch_of (firstn n (queue d)))%list) /\
  (forall (w : World) (d : Database) (c : Call.t) (rest : list Call.t),
      db w = Some d -> open d = true -> locked d = false ->
      queue d = c :: rest -> Call.exclusive c = true -> 0 < pending d ->
      Process w = Ok tt w) /\
  (forall (w : World) (d : Database) (callback : EIO_Callback) (baton : Baton.t),
      db w = Some d -> open d = true -> locked d = false ->
      Schedule callback baton false w = invoke callback baton w).
Proof.
  split; [exact Process_prefix|]. split; [exact Process_blocked|].
  exact Schedule_shared_immediate.
Qed.

(** With a close waiting behind one pending operation, the drain does
    nothing and a new shared request runs at once. *)
Lemma C1_witness :
  Process waiting_world = Ok tt waiting_world /\
  Schedule cb_BeginShared (shared_baton 4) false waiting_world =
  invoke cb_BeginShared (shared_baton 4) waiting_world.
Proof.
  destruct C1_queue_drains_in_order as (_ & Hblocked & Hnow).
  split.
  - apply (Hblocked waiting_world _ (close_record 3) [] eq_refl);
      try reflexivity. cbn. lia.
  - apply (Hnow waiting_world _ cb_BeginShared (shared_baton 4) eq_refl);
      reflexivity.
Defined.

(** C1 as stated fails: the shared request 4, submitted after the close 3,
    is dispatched while that close still waits in the queue. *)
Lemma C1_counterexample :
  exists w d,
    launch test_db [EvWork 0 accepted; EvAfter 0; EvSubmit (Some 2);
                    EvClose (Some 3); EvSubmit (Some 4)] = Next w /\
    db w = Some d /\
    queue d = [close_record 3] /\
    filter is_dispatch (log w) =
      [Dispatched JobOpen (Some (open_baton test_db));
       Dispatched JobShared (Some (shared_baton 2));
       Dispatched JobShared (Some (shared_baton 4))].
Proof.
  eexists. eexists. split; [vm_compute; reflexivity|].
  split; [reflexivity|]. split; reflexivity.
Qed.

(** ** Evaluations at inputs where the code departs from a claim *)

(** C2: three closes are requested on an open connection; the first runs,
    the other two are queued behind the lock.  When the first completes the
    connection is permanently closed and the drain runs: it emits one
    "error" notification and returns.  Both records stay in the queue with
    their references, and neither completion action is called. *)
Theorem C2_closed_drain_reports_once :
  exists w w' d d',
    launch test_db [EvWork 0 accepted; EvAfter 0; EvClose (Some 2);
                    EvClose (Some 3); EvClose None; EvWork 0 accepted] = Next w /\
    step (EvAfter 0) w = Next w' /\
    db w = Some d /\ db w' = Some d' /\
    queue d = [close_record 3; Call.mk cb_EIO_BeginClose no_baton true] /\
    open d' = false /\ locked d' = true /\
    queue d' = queue d /\
    refs_ d' = 2 /\
    skipn (List.length (log w)) (log w') =
      [Called 2 [Null]; Emitted [JsString "close"];
       Emitted [JsString "error"; closed_error]].
Proof.
  do 4 eexists. split; [vm_compute; reflexivity|].
  split; [vm_compute; reflexivity|].
  repeat (split; [reflexivity|]). reflexivity.
Qed.

(** C3: the engine rejects a close.  The error reaches the completion
    action, the connection stays open and keeps its handle, but [locked],
    false before the close began, stays true: a second close is queued, the
    drain leaves it there, and nothing is dispatched. *)
Theorem C3_failed_close_stays_locked :
  exists w0 w1 w2 d0 d1 d2,
    launch test_db [EvWork 0 accepted; EvAfter 0] = Next w0 /\
    run [EvClose (Some 2); EvWork 0 rejected; EvAfter 0] w0 = Next w1 /\
    run [EvClose (Some 3)] w1 = Next w2 /\
    db w0 = Some d0 /\ db w1 = Some d1 /\ db w2 = Some d2 /\
    locked d0 = false /\
    open d1 = true /\ locked d1 = true /\ handle d1 = Some 7 /\
    filter is_notification (skipn (List.length (log w0)) (log w1)) =
      [Called 2 [Error "unable to close due to unfinalised statements" SQLITE_BUSY]] /\
    queue d2 = [close_record 3] /\ pool w2 = [] /\ log w2 = log w1 /\
    Process w2 = Ok tt w2.
Proof.
  do 6 eexists. split; [vm_compute; reflexivity|].
  split; [vm_compute; reflexivity|].
  split; [vm_compute; reflexivity|].
  repeat (split; [reflexivity|]). vm_compute. reflexivity.
Qed.

(** C8: [close] on a permanently closed connection fails at once with the
    misuse error, dispatches nothing, and leaves the reference count and the
    event-loop marker one higher than before. *)
Theorem C8_close_on_closed_keeps_reference :
  exists w w' d d',
    launch test_db [EvWork 0 accepted; EvAfter 0; EvClose (Some 2);
                    EvWork 0 accepted; EvAfter 0] = Next w /\
    step (EvClose (Some 3)) w = Next w' /\
    db w = Some d /\ db w' = Some d' /\
    refs_ d = 0 /\ ev_refs w = 0%Z /\
    refs_ d' = 1 /\ ev_refs w' = 1%Z /\ handle_ d' = Strong /\
    pool w' = [] /\ queue d' = [] /\
    log w' = (log w ++ [Called 3 [closed_error]])%list.
Proof.
  do 4 eexists. split; [vm_compute; reflexivity|].
  split; [vm_compute; reflexivity|].
  repeat (split; [reflexivity|]). reflexivity.
Qed.

(** Opening ['a\0b'] read-only passes the read-only flag with the
    full-mutex flag, and the path ["a"]. *)
Lemma C9_witness :
  exists w,
    launch [JsString nul_name; Int32 SQLITE_OPEN_READONLY]
           [EvWork 0 accepted] = Next w /\
    filter is_engine_open (log w) = [Engine_open "a" 65537 SQLITE_OK].
Proof.
  destruct (C9_open_mode [JsString nul_name; Int32 SQLITE_OPEN_READONLY]
                         accepted eq_refl) as (w & Hw & Hl).
  exists w. split; [exact Hw|exact Hl].
Defined.

(** * Further properties of the code *)

Ltac sim :=
  repeat (progress (cbv [run step]; mred;
                    cbn [app nth_error replace_nth remove_nth List.length
                         Nat.sub Nat.ltb Nat.leb Nat.eqb];
                    rewrite ?Process_loop_S; try unfold Process)
          || case_if).


(** ** Construction and open *)

(** X1: a construction with a string file name returns the wrapper, sets its
    [filename] and [mode] properties (the name whole, the mode as
    requested, without the full-mutex flag), and leaves exactly one open
    request in the pool, holding one reference and one event-loop mark and
    carrying the name up to its first NUL.  The completion action is
    argument 1 when that is a function, and argument 2 only when argument 1
    is an int32 mode. *)
Theorem New_constructs_one_open_request :
  forall (args : list Value),
    IsString (arg args 0) = true ->
    New true args empty_world =
    Ok (Returned This)
       (mkWorld (Some (mkDatabase false false 0 [] None Strong 1))
                [("filename", JsString (ToString (arg args 0)));
                 ("mode", Int32 (requested_mode args))]
                [mkReq JobOpen
                       (Some (Baton.mk (open_callback args) 0%Z ""
                                       (c_str (ToString (arg args 0)))
                                       (Z.lor SQLITE_OPEN_FULLMUTEX (requested_mode args))))
                       false]
                1%Z
                [Dispatched JobOpen
                       (Some (Baton.mk (open_callback args) 0%Z ""
                                       (c_str (ToString (arg args 0)))
                                       (Z.lor SQLITE_OPEN_FULLMUTEX (requested_mode args))))]
                false).
Proof.
  intros args Hs. destruct (New_shape args) as [[Hf _]|[_ H]]; [congruence|exact H].
Qed.

(** A function after a second argument that is not an int32 is ignored,
    and of the name ['a\0b'] the open request carries ["a"]. *)
Lemma New_constructs_witness :
  New true [JsString nul_name; JsString "rw"; Function 1] empty_world =
  Ok (Returned This)
     (mkWorld (Some (mkDatabase false false 0 [] None Strong 1))
              [("filename", JsString nul_name); ("mode", Int32 6)]
              [mkReq JobOpen (Some (Baton.mk None 0%Z "" "a" 65542)) false]
              1%Z
              [Dispatched JobOpen (Some (Baton.mk None 0%Z "" "a" 65542))]
              false).
Proof.
  apply (New_constructs_one_open_request
           [JsString nul_name; JsString "rw"; Function 1]).
  reflexivity.
Defined.

(** X2: when the engine opens the file, which it is asked for by the name
    up to its first NUL, the connection becomes open with the engine's
    handle, the reference and the event-loop mark of the open request are
    released, the completion action (if any) receives null, and an "open"
    notification is emitted whether or not a completion action was
    given. *)
Theorem open_success_opens_and_notifies :
  forall (args : list Value) (a : Answer),
    IsString (arg args 0) = true ->
    rc a = SQLITE_OK ->
    launch args [EvWork 0 a; EvAfter 0] = Next (opened_world args a).
Proof.
  intros args [r msg c] Hs Hrc. cbv [rc] in Hrc. subst r.
  rewrite (launch_constructed _ _ Hs).
  unfold opened_world, success_report, opening_world, open_baton.
  destruct (open_callback args) as [f|];
    cbv -[Z.lor requested_mode ToString arg SQLITE_OPEN_FULLMUTEX c_str];
    rewrite c_str_idempotent; reflexivity.
Qed.

Lemma open_success_witness :
  launch test_db [EvWork 0 accepted; EvAfter 0] = Next (opened_world test_db accepted).
Proof.
  apply (open_success_opens_and_notifies test_db accepted); reflexivity.
Defined.

(** ** Requests submitted before the open completes *)





(** ** Close *)

(** X4: a close on an open, idle connection that the engine accepts leaves
    the connection permanently closed (not open, locked, no handle), hands
    null to the completion action (if any) and emits a "close"
    notification without arguments, whether or not a completion action was
    given. *)
Theorem close_success_closes_and_notifies :
  forall (args : list Value) (a1 a2 : Answer) (callback : option nat),
    rc a2 = SQLITE_OK ->
    run [EvClose callback; EvWork 0 a2; EvAfter 0] (opened_world args a1) =
    Next (mkWorld (Some (mkDatabase false true 0 [] None Weak 0))
                  (this_ (opened_world args a1)) [] 0%Z
                  (log (opened_world args a1) ++
                   [Dispatched JobClose (Some (close_baton callback));
                    Engine_close (Some (conn a1)) (rc a2)] ++
                   close_success_report callback ++
                   [Emitted [JsString "close"]])
                  false).
Proof.
  intros args a1 [r msg c] callback Hrc. cbv [rc SQLITE_OK] in Hrc. subst r.
  unfold opened_world. cbv [log this_].
  match goal with
  | |- context [mkWorld _ ?t _ _ ?l _] => generalize l; generalize t
  end.
  intros th lg.
  destruct callback; sim; cbv [close_success_report close_baton];
    rewrite <- ?app_assoc; reflexivity.
Qed.

Lemma close_success_witness :
  exists w,
    run [EvClose (Some 2); EvWork 0 accepted; EvAfter 0]
        (opened_world test_db accepted) = Next w /\
    db w = Some (mkDatabase false true 0 [] None Weak 0) /\
    filter is_notification (log w) =
      [Called 1 [Null]; Emitted [JsString "open"];
       Called 2 [Null]; Emitted [JsString "close"]].
Proof.
  eexists. split.
  - apply (close_success_closes_and_notifies test_db accepted accepted (Some 2)).
    reflexivity.
  - split; reflexivity.
Defined.

(** X5: a close the engine rejects hands the engine's error to the
    completion action or, without one, emits it as an "error"
    notification; no "close" notification fires, and the connection stays
    open with its handle. *)
Theorem close_failure_reports_and_keeps_handle :
  forall (args : list Value) (a1 a2 : Answer) (callback : option nat),
    rc a2 <> SQLITE_OK ->
    run [EvClose callback; EvWork 0 a2; EvAfter 0] (opened_world args a1) =
    Next (mkWorld (Some (mkDatabase true true 0 [] (Some (conn a1)) Weak 0))
                  (this_ (opened_world args a1)) [] 0%Z
                  (log (opened_world args a1) ++
                   [Dispatched JobClose (Some (close_baton callback));
                    Engine_close (Some (conn a1)) (rc a2);
                    close_failure_report callback a2])
                  false).
Proof.
  intros args a1 [r msg c] callback Hrc. cbv [rc] in Hrc.
  apply Z.eqb_neq in Hrc.
  unfold opened_world. cbv [log this_].
  match goal with
  | |- context [mkWorld _ ?t _ _ ?l _] => generalize l; generalize t
  end.
  intros th lg.
  destruct callback;
    repeat (progress (cbv [run step]; mred;
                      cbn [app nth_error replace_nth remove_nth List.length
                           Nat.sub Nat.ltb Nat.leb Nat.eqb];
                      rewrite ?Hrc));
    cbv [close_failure_report close_baton EXCEPTION errmsg rc];
    rewrite <- ?app_assoc; reflexivity.
Qed.

Lemma close_failure_witness :
  exists w,
    run [EvClose None; EvWork 0 rejected; EvAfter 0] (opened_world test_db accepted)
      = Next w /\
    db w = Some (mkDatabase true true 0 [] (Some 7) Weak 0) /\
    filter is_notification (log w) =
      [Called 1 [Null]; Emitted [JsString "open"];
       Emitted [JsString "error";
                Error "unable to close due to unfinalised statements" SQLITE_BUSY]].
Proof.
  eexists. split.
  - apply (close_failure_reports_and_keeps_handle test_db accepted rejected None).
    discriminate.
  - split; reflexivity.
Defined.

(** ** The closed state is final *)

Lemma closed_step (e : Event) (q : list Call.t) (lg : list Obs) (w w' : World) :
  closed q lg w -> step e w = Next w' -> closed q (lg ++ report_of e) w'.
Proof.
  intros (Hp & Hl & Hd) Hs.
  destruct w as [[[o l pe qu h h_ r]|] th p ev lg0 col];
    cbv [pool log db open locked handle handle_ queue] in Hp, Hl, Hd; subst p lg0.
  - destruct Hd as (-> & -> & -> & He & ->).
    destruct e as [cb|cb|i a|i|]; cbn [report_of]; unfold step in Hs;
      cbv [pool nth_error] in Hs;
      try (destruct i; discriminate Hs).
    + destruct col, cb, h_; try discriminate He; revert Hs; mrun; intros Hs;
        try discriminate Hs; injection Hs as <-;
        repeat split; reflexivity.
    + destruct col, cb, h_; try discriminate He; revert Hs; mrun; intros Hs;
        try discriminate Hs; injection Hs as <-;
        repeat split; reflexivity.
    + destruct col, h_; try discriminate He; revert Hs; mrun; intros Hs;
        try discriminate Hs; injection Hs as <-;
        rewrite app_nil_r; repeat split; reflexivity.
  - destruct e as [cb|cb|i a|i|]; unfold step in Hs; cbv in Hs;
      try discriminate Hs; destruct i; discriminate Hs.
Qed.

Lemma closed_run (evs : list Event) :
  forall (q : list Call.t) (lg : list Obs) (w w' : World),
    closed q lg w -> run evs w = Next w' ->
    closed q (lg ++ flat_map report_of evs) w'.
Proof.
  induction evs as [|e evs IH]; intros q lg w w' Hu Hr; simpl in *.
  - injection Hr as <-. rewrite app_nil_r. exact Hu.
  - destruct (step e w) as [w1| |] eqn:Hs; try discriminate Hr.
    rewrite app_assoc. apply (IH _ _ w1 w'); [|exact Hr].
    apply (closed_step e q lg w w1 Hu Hs).
Qed.

(** X6: on a permanently closed connection with nothing in flight, every
    later request, shared or close, fails at once with the "Database is
    closed" error, in the order submitted; nothing is queued or dispatched,
    the engine is never called again, and the connection stays closed until
    it is destroyed. *)
Theorem closed_connection_fails_every_request :
  forall (w : World) (d : Database) (evs : list Event) (w' : World),
    db w = Some d ->
    open d = false -> locked d = true -> handle d = None ->
    IsEmpty (handle_ d) = false -> pool w = [] ->
    run evs w = Next w' ->
    log w' = (log w ++ flat_map report_of evs)%list /\
    pool w' = [] /\
    forall d', db w' = Some d' ->
      open d' = false /\ locked d' = true /\ handle d' = None /\
      queue d' = queue d.
Proof.
  intros w d evs w' Hd Ho Hl Hh He Hp Hr.
  assert (Hc : closed (queue d) (log w) w).
  { split; [exact Hp|]. split; [reflexivity|]. rewrite Hd. tauto. }
  destruct (closed_run evs _ _ _ _ Hc Hr) as (Hp' & Hl' & Hd').
  split; [exact Hl'|]. split; [exact Hp'|].
  intros d' E. rewrite E in Hd'. tauto.
Qed.

Lemma closed_connection_witness :
  exists w',
    run [EvSubmit (Some 5); EvClose None] closed_world = Next w' /\
    log w' = [Called 5 [closed_error]; Emitted [JsString "error"; closed_error]].
Proof.
  eexists. split; [vm_compute; reflexivity|].
  refine (proj1 (closed_connection_fails_every_request closed_world
            (mkDatabase false true 0 [] None Weak 0)
            [EvSubmit (Some 5); EvClose None] _
            eq_refl eq_refl eq_refl eq_refl eq_refl eq_refl _)).
  vm_compute. reflexivity.
Defined.

(** ** References *)

(** X7: a close that is dispatched at once (open, unlocked, idle connection,
    empty pool) gives back the reference and the event-loop mark it took:
    after its completion handler ran, the reference count, the wrapper's
    weakness and the marker are what they were before [close] was called,
    whether the engine accepted the close or not. *)
Theorem dispatched_close_releases_reference :
  forall (w : World) (d : Database) (callback : option nat) (a : Answer),
    db w = Some d -> collected w = false -> pool w = [] ->
    open d = true -> locked d = false -> pending d = 0 ->
    IsEmpty (handle_ d) = false ->
    (IsWeak (handle_ d) = true <-> refs_ d = 0) ->
    exists w' d',
      run [EvClose callback; EvWork 0 a; EvAfter 0] w = Next w' /\
      db w' = Some d' /\
      refs_ d' = refs_ d /\ handle_ d' = handle_ d /\
      ev_refs w' = ev_refs w /\ pool w' = [] /\
      locked d' = true /\ queue d' = queue d.
Proof.
  intros [dbo th p ev lg col] [o l pe q h h_ r] callback [rca msg c]
         Hd Hc Hp Ho Hl Hpe He Hw.
  cbv [db collected pool open locked pending handle_ refs_ IsEmpty IsWeak]
    in Hd, Hc, Hp, Ho, Hl, Hpe, He, Hw.
  subst dbo col p o l pe.
  assert (Hev : (ev + 1 - 1)%Z = ev) by lia.
  destruct h_; try discriminate He.
  - destruct r as [|r]; [destruct Hw as [_ Hw]; discriminate (Hw eq_refl)|].
    destruct callback, q as [|c0 q]; sim;
      (eexists; eexists; split; [reflexivity|];
       cbv [db refs_ handle_ ev_refs pool locked queue];
       repeat split; try reflexivity; try exact Hev).
  - destruct Hw as [Hw _]. rewrite (Hw eq_refl).
    destruct callback, q as [|c0 q]; sim;
      (eexists; eexists; split; [reflexivity|];
       cbv [db refs_ handle_ ev_refs pool locked queue];
       repeat split; try reflexivity; try exact Hev).
Qed.

Lemma dispatched_close_witness :
  exists w' d',
    run [EvClose (Some 2); EvWork 0 rejected; EvAfter 0]
        (opened_world test_db accepted) = Next w' /\
    db w' = Some d' /\ refs_ d' = 0 /\ ev_refs w' = 0%Z.
Proof.
  destruct (dispatched_close_releases_reference (opened_world test_db accepted)
              (mkDatabase true false 0 [] (Some 7) Weak 0) (Some 2) rejected
              eq_refl eq_refl eq_refl eq_refl eq_refl eq_refl eq_refl
              (conj (fun _ => eq_refl) (fun _ => eq_refl)))
    as (w' & d' & Hrun & Hd & Hr & _ & Hev & _).
  exists w', d'. repeat split; assumption.
Defined.

(** X8: on a wrapped object whose wrapper is weak exactly when nobody holds
    a reference, [Ref] followed by [Unref] changes nothing: the count and
    the weakness of the wrapper are restored. *)
Theorem Ref_then_Unref_restores :
  forall (w : World) (d : Database),
    db w = Some d ->
    IsEmpty (handle_ d) = false ->
    (IsWeak (handle_ d) = true <-> refs_ d = 0) ->
    (Ref ;; Unref) w = Ok tt w.
Proof.
  intros [dbo th p ev lg col] [o l pe q h h_ r] Hd He Hw.
  cbv [db] in Hd. subst dbo. cbv [handle_ refs_ IsEmpty IsWeak] in He, Hw.
  destruct h_; try discriminate He.
  - destruct r as [|r]; [destruct Hw as [_ Hw]; discriminate (Hw eq_refl)|].
    mred. cbn [Nat.ltb Nat.leb Nat.sub Nat.eqb]. mred. reflexivity.
  - destruct Hw as [Hw _]. rewrite (Hw eq_refl). reflexivity.
Qed.

Lemma Ref_then_Unref_witness :
  (Ref ;; Unref) (opened_world test_db accepted) = Ok tt (opened_world test_db accepted).
Proof.
  apply (Ref_then_Unref_restores (opened_world test_db accepted)
           (mkDatabase true false 0 [] (Some 7) Weak 0)).
  - reflexivity.
  - reflexivity.
  - split; reflexivity.
Defined.

(** ** Finalization *)

(** X9: when the collector finalizes a connection whose handle is present,
    the finalizer marks the event loop and dispatches a background close;
    that close calls the engine once on the handle, and whatever the engine
    answers the object is then deleted and the mark released.  When the
    handle is absent the object is deleted at once, with no dispatch and no
    engine call. *)
Theorem finalizer_closes_or_deletes :
  forall (w : World) (d : Database) (a : Answer),
    db w = Some d -> collected w = false -> pool w = [] ->
    handle_ d = Weak ->
    match handle d with
    | Some h =>
      exists w1 d1 w2,
        run [EvGC] w = Next w1 /\
        db w1 = Some d1 /\ ev_refs w1 = (ev_refs w + 1)%Z /\
        pool w1 = [mkReq JobDestruct None false] /\
        run [EvWork 0 a; EvAfter 0] w1 = Next w2 /\
        db w2 = None /\ pool w2 = [] /\ ev_refs w2 = ev_refs w /\
        log w2 = (log w ++ [Dispatched JobDestruct None;
                            Engine_close (Some h) (rc a)])%list
    | None =>
      exists w1,
        run [EvGC] w = Next w1 /\
        db w1 = None /\ pool w1 = [] /\ ev_refs w1 = ev_refs w /\
        log w1 = log w
    end.
Proof.
  intros [dbo th p ev lg col] [o l pe q h h_ r] [rca msg c] Hd Hc Hp Hw.
  cbv [db collected pool handle_] in Hd, Hc, Hp, Hw. subst dbo col p h_.
  assert (Hev : (ev + 1 - 1)%Z = ev) by lia.
  cbv [handle]. destruct h as [h|].
  - do 3 eexists.
    split; [cbv [run step collectible db handle_ collected IsWeak negb andb];
            sim; reflexivity|].
    split; [reflexivity|]. split; [reflexivity|]. split; [reflexivity|].
    split; [sim; reflexivity|].
    cbv [db pool ev_refs log rc].
    repeat split; try reflexivity; try exact Hev.
    rewrite <- app_assoc. reflexivity.
  - eexists.
    split; [cbv [run step collectible db handle_ collected IsWeak negb andb];
            sim; reflexivity|].
    repeat split; reflexivity.
Qed.

Lemma finalizer_witness :
  exists w2,
    run [EvGC; EvWork 0 rejected; EvAfter 0] (opened_world test_db accepted) = Next w2 /\
    db w2 = None /\
    filter is_engine_close (log w2) = [Engine_close (Some 7) SQLITE_BUSY].
Proof.
  destruct (finalizer_closes_or_deletes (opened_world test_db accepted)
              (mkDatabase true false 0 [] (Some 7) Weak 0) rejected
              eq_refl eq_refl eq_refl eq_refl)
    as (w1 & d1 & w2 & H1 & _ & _ & _ & H2 & Hd & _ & _ & Hl).
  exists w2. split.
  - change (run [EvGC; EvWork 0 rejected; EvAfter 0] (opened_world test_db accepted))
      with (match run [EvGC] (opened_world test_db accepted) with
            | Next w => run [EvWork 0 rejected; EvAfter 0] w
            | o => o
            end).
    rewrite H1. exact H2.
  - split; [exact Hd|]. rewrite Hl. reflexivity.
Defined.

(** X10: in every world a constructed connection can reach, the collector
    can run the finalizer only when nothing is in flight and no close is
    queued; and once the object has been deleted the pool is empty, so no
    worker or completion handler ever touches a deleted object. *)
Theorem finalizer_only_when_idle :
  forall (args : list Value) (evs : list Event) (w : World),
    launch args evs = Next w ->
    (collectible w = true ->
       pool w = [] /\
       forall d, db w = Some d -> count is_close_call (queue d) = 0) /\
    (db w = None -> pool w = []).
Proof.
  intros args evs w H. pose proof (launch_Inv args evs) as HI.
  rewrite H in HI. destruct HI as (_ & _ & HL).
  split.
  - unfold collectible. destruct (db w) as [d|] eqn:Hd; [|discriminate].
    intros Hc. apply andb_true_iff in Hc. destruct Hc as [Hweak Hnc].
    apply negb_true_iff in Hnc.
    destruct HL as [L1 L2 L3 L4 L5 L5' L6 L7 L8 L9 L10 L11 L12 L13 L14 L15 L16].
    apply L2 in Hweak. specialize (L5' Hnc).
    pose proof (pool_facts (pool w)) as Hp.
    split.
    + apply count_any_nil. lia.
    + intros d0 Hd0. injection Hd0 as <-. lia.
  - intros Hd. rewrite Hd in HL. apply HL.
Qed.

Lemma finalizer_only_when_idle_witness :
  exists w,
    launch test_db [EvWork 0 accepted; EvAfter 0] = Next w /\
    collectible w = true /\ pool w = [].
Proof.
  exists (opened_world test_db accepted).
  split; [vm_compute; reflexivity|]. split; [reflexivity|].
  refine (proj1 (proj1 (finalizer_only_when_idle test_db
            [EvWork 0 accepted; EvAfter 0] (opened_world test_db accepted) _) _)).
  - vm_compute. reflexivity.
  - reflexivity.
Defined.

(** ** Bookkeeping kept over every run *)

Ltac solve_balance :=
  cbv [Balance db log pool ev_refs refs_ locked];
  unfold close_dispatches in *;
  rewrite ?count_snoc in *;
  cbn [b2n count is_job Job_eqb is_close_dispatch job] in *;
  lia.

Ltac close_balance :=
  lazymatch goal with
  | |- carried _ (Next _) => cbv [carried]; solve_balance
  | |- carried _ (Crash _) => exact I
  | |- carried _ Disabled => exact I
  | |- kept _ (Ok _ _) =>
    cbv [kept]; split; [solve_balance|split; [discriminate|reflexivity]]
  | |- kept _ (Abort _) => exact I
  end.

Ltac use_balance HB :=
  let B1 := fresh "B1" in let B2 := fresh "B2" in
  let B3 := fresh "B3" in let B4 := fresh "B4" in
  destruct HB as (B1 & B2 & B3 & B4);
  unfold close_dispatches in *;
  cbv [db log pool ev_refs refs_ locked] in B1, B2, B3, B4.

Lemma Process_loop_Balance (k fuel : nat) :
  forall (w : World),
    db w <> None -> collected w = false -> Balance k w ->
    kept (Balance k) (Process_loop fuel w).
Proof.
  induction fuel as [|fuel IH]; intros w Hd Hc HB; [exact I|].
  destruct w as [[[o l pe q h h_ r]|] th p ev lg col]; [|contradiction].
  cbv [collected] in Hc. subst col. clear Hd.
  use_balance HB.
  rewrite Process_loop_S.
  destruct o, l, q as [|[cb b ex] q']; mred;
    try (split; [|split; [discriminate|reflexivity]];
         cbv [Balance db log pool ev_refs refs_ locked];
         unfold close_dispatches; cbn [b2n] in *; lia).
  destruct cb, ex; mrun;
    try exact I;
    try (split; [|split; [discriminate|reflexivity]];
         cbv [Balance db log pool ev_refs refs_ locked];
         unfold close_dispatches; cbn [b2n] in *; lia).
  all: match goal with
       | |- kept _ (Process_loop _ ?W) =>
         apply (IH W); [discriminate|reflexivity|solve_balance]
       end.
Qed.

Lemma Process_Balance (k : nat) (w : World) :
  db w <> None -> collected w = false -> Balance k w ->
  kept (Balance k) (Process w).
Proof.
  intros Hd Hc HB. unfold Process, bind, get_db.
  destruct (db w) as [d|] eqn:E; [|contradiction].
  destruct (negb (open d) && locked d && negb (queue_empty d)).
  - destruct w as [dbo th p ev lg col]. cbv [db collected] in E, Hc. subst dbo col.
    destruct d as [o l pe q h h_ r]. use_balance HB.
    mrun. close_balance.
  - apply Process_loop_Balance; try assumption. rewrite E. discriminate.
Qed.

Ltac via_Process_Balance :=
  lazymatch goal with
  | |- carried _ (match Process ?W with _ => _ end) =>
    let HW := fresh "HW" in
    let k := lazymatch goal with |- carried (Balance ?k) _ => k end in
    assert (HW : Balance k W) by solve_balance;
    let HP := fresh "HP" in
    pose proof (Process_Balance k W ltac:(discriminate) eq_refl HW) as HP;
    destruct (Process W) as [[] w'|e]; [exact (proj1 HP)|exact I]
  end.

Ltac pose_replace_destruct H :=
  match type of H with
  | nth_error ?p ?i = Some ?r =>
    match goal with
    | |- context [replace_nth i ?r' p] =>
      pose proof (count_replace_nth (is_job JobDestruct) p i r r' H)
    end
  end.

Lemma step_Balance (k : nat) (e : Event) (w : World) :
  Inv w -> Balance k w -> carried (Balance k) (step e w).
Proof.
  intros HI HB. unfold step.
  destruct e as [cb|cb|i a|i|].
  - unfold reachable_from_js.
    destruct w as [[[o l pe q h h_ r]|] th p ev lg [|]];
      cbv [db collected negb]; try exact I.
    use_balance HB. mrun. all: close_balance.
  - unfold reachable_from_js.
    destruct w as [[[o l pe q h h_ r]|] th p ev lg [|]];
      cbv [db collected negb]; try exact I.
    use_balance HB. mrun. all: close_balance.
  - destruct (nth_error (pool w) i) as [[j b dn]|] eqn:Hnth; [|exact I].
    destruct dn; [exact I|]. cbv [done].
    destruct w as [[[o l pe q h h_ r]|] th p ev lg col].
    2:{ destruct HI as (_ & _ & Hp & _). simpl in Hp, Hnth. subst p.
        destruct i; discriminate. }
    cbv [pool] in Hnth. use_balance HB. destruct a as [rca msg c].
    destruct j; mrun.
    all: pose_replace_destruct Hnth.
    all: close_balance.
  - destruct (nth_error (pool w) i) as [[j b dn]|] eqn:Hnth; [|exact I].
    destruct dn; [|exact I]. cbv [done].
    destruct w as [[[o l pe q h h_ r]|] th p ev lg col].
    2:{ destruct HI as (_ & _ & Hp & _). simpl in Hp, Hnth. subst p.
        destruct i; discriminate. }
    cbv [pool] in Hnth.
    pose proof (count_remove_nth (is_job JobDestruct) p i _ Hnth) as Hrem.
    pose proof (count_remove_nth holds_ref p i _ Hnth) as Hrem'.
    destruct HI as (_ & _ & HL).
    cbv [db] in HL. destruct HL as [_ _ L3 _ L5 L5' _ _ _ _ _ _ _ _ _ _ _].
    cbv [pool collected refs_ queue] in L3, L5, L5'.
    use_balance HB.
    destruct j, col; cbn [b2n count is_job holds_ref Job_eqb job negb] in Hrem, Hrem';
      try (exfalso; lia).
    all: mrun.
    all: try solve [close_balance].
    all: via_Process_Balance.
  - unfold collectible.
    destruct w as [[[o l pe q h h_ r]|] th p ev lg col]; cbv [db collected handle_];
      [|exact I].
    destruct h_, col; cbv [IsWeak andb negb]; try exact I.
    destruct HI as (_ & _ & HL).
    cbv [db] in HL. destruct HL as [_ L2 _ _ _ L5' _ _ _ _ _ _ _ _ _ _ _].
    cbv [pool collected refs_ handle_ IsWeak] in L2, L5'.
    use_balance HB. mrun. all: close_balance.
Qed.

Lemma run_Balance (k : nat) (evs : list Event) :
  forall w, Inv w -> Balance k w -> carried (Balance k) (run evs w).
Proof.
  induction evs as [|e evs IH]; intros w HI HB; simpl; [exact HB|].
  pose proof (step_Inv e w HI) as Hs.
  pose proof (step_Balance k e w HI HB) as Hb.
  destruct (step e w) as [w'| |]; simpl in *; try exact I.
  apply IH; assumption.
Qed.

Lemma constructed_Balance (args : list Value) :
  carried (Balance 0) (constructed args).
Proof.
  unfold constructed.
  destruct (New_shape args) as [[_ ->]|[_ ->]]; cbv [outcome carried].
  - cbv. repeat split; lia.
  - cbv -[Nat.le Z.add Z.of_nat]. repeat split; lia.
Qed.

Lemma launch_Balance (args : list Value) (evs : list Event) :
  carried (Balance 0) (launch args evs).
Proof.
  unfold launch. pose proof (constructed_Balance args) as Hb.
  pose proof (constructed_Inv args) as Hi.
  destruct (constructed args) as [w| |]; simpl in *; try exact I.
  apply run_Balance; assumption.
Qed.


(** X11: in every world a constructed connection can reach, the event-loop
    marker equals the reference count plus the number of finalizer requests
    in flight, and it is zero once the object has been deleted. *)
Theorem event_loop_marks_match_references :
  forall (args : list Value) (evs : list Event) (w : World),
    launch args evs = Next w ->
    match db w with
    | Some d =>
      ev_refs w =
        (Z.of_nat (refs_ d) + Z.of_nat (count (is_job JobDestruct) (pool w)))%Z
    | None => ev_refs w = 0%Z
    end.
Proof.
  intros args evs w H. pose proof (launch_Balance args evs) as HB.
  rewrite H in HB. destruct HB as (_ & _ & HB).
  destruct (db w); tauto.
Qed.

Lemma event_loop_marks_witness :
  exists w,
    launch test_db [EvWork 0 accepted; EvAfter 0; EvSubmit None; EvClose None] = Next w /\
    ev_refs w = 2%Z.
Proof.
  eexists. split; [vm_compute; reflexivity|].
  exact (event_loop_marks_match_references test_db
           [EvWork 0 accepted; EvAfter 0; EvSubmit None; EvClose None] _
           ltac:(vm_compute; reflexivity)).
Defined.

(** X12: [locked] is a latch.  Over the whole life of a connection at most
    one close is dispatched, the connection is locked exactly when one has
    been, and once locked it stays locked whatever happens next. *)
Theorem lock_is_a_latch :
  forall (args : list Value) (evs1 evs2 : list Event) (w1 w2 : World),
    launch args evs1 = Next w1 ->
    run evs2 w1 = Next w2 ->
    close_dispatches (log w2) <= 1 /\
    (forall d2, db w2 = Some d2 ->
       (locked d2 = true <-> close_dispatches (log w2) = 1)) /\
    (forall d1 d2, db w1 = Some d1 -> db w2 = Some d2 ->
       locked d1 = true -> locked d2 = true).
Proof.
  intros args evs1 evs2 w1 w2 H1 H2.
  pose proof (launch_Balance args evs1) as HB1.
  pose proof (launch_Inv args evs1) as HI1.
  rewrite H1 in HB1, HI1. cbv [carried preserved] in HB1, HI1.
  assert (HB2 : Balance 0 w2).
  { pose proof (run_Balance 0 evs2 w1 HI1 HB1) as H. rewrite H2 in H. exact H. }
  split; [apply HB2|]. split.
  - intros d2 Hd2. destruct HB2 as (_ & _ & HB2). rewrite Hd2 in HB2.
    destruct HB2 as [_ Hc]. rewrite Hc. destruct (locked d2); cbn; split;
      intros; congruence.
  - intros d1 d2 Hd1 Hd2 Hl.
    assert (HK : Balance 1 w1).
    { destruct HB1 as (B1 & B2 & B3). split; [|split; [exact B2|exact B3]].
      rewrite Hd1 in B3. destruct B3 as [_ Hc]. rewrite Hc, Hl. cbn. lia. }
    pose proof (run_Balance 1 evs2 w1 HI1 HK) as H. rewrite H2 in H.
    destruct H as (K1 & K2 & K3). rewrite Hd2 in K3. destruct K3 as [_ Hc].
    destruct (locked d2); [reflexivity|]. cbn in Hc. lia.
Qed.

Lemma lock_is_a_latch_witness :
  exists w1 w2 d2,
    launch test_db [EvWork 0 accepted; EvAfter 0; EvClose None] = Next w1 /\
    run [EvWork 0 rejected; EvAfter 0; EvClose None] w1 = Next w2 /\
    db w2 = Some d2 /\ locked d2 = true.
Proof.
  do 3 eexists. split; [vm_compute; reflexivity|].
  split; [vm_compute; reflexivity|]. split; [reflexivity|].
  eapply (proj2 (proj2 (lock_is_a_latch test_db
            [EvWork 0 accepted; EvAfter 0; EvClose None]
            [EvWork 0 rejected; EvAfter 0; EvClose None] _ _
            ltac:(vm_compute; reflexivity) ltac:(vm_compute; reflexivity)))).
  - reflexivity.
  - reflexivity.
  - reflexivity.
Defined.

(** ** The drain reaches a fixed point *)

Lemma Process_loop_fixed (fuel : nat) :
  forall (w w' : World),
    Process_loop fuel w = Ok tt w' ->
    (exists d, db w = Some d /\ open d = true) ->
    (exists d', db w' = Some d' /\ open d' = true) /\
    forall fuel', Process_loop (S fuel') w' = Ok tt w'.
Proof.
  induction fuel as [|fuel IH]; intros w w' H (d & Hd & Ho); [discriminate H|].
  destruct w as [dbo th p ev lg col]. cbv [db] in Hd. subst dbo.
  destruct d as [o l pe q h h_ r]. cbv [open] in Ho. subst o.
  rewrite Process_loop_S in H. revert H.
  destruct l, q as [|[cb b ex] q']; mred;
    try (intros H; injection H as <-;
         split; [eexists; split; reflexivity|];
         intros fuel'; rewrite Process_loop_S; mred; reflexivity).
  destruct cb, ex, pe as [|pe], h_; mred; cbn [Nat.ltb Nat.leb andb]; mred;
    try (intros H; discriminate H);
    try (intros H; injection H as <-;
         split; [eexists; split; reflexivity|];
         intros fuel'; rewrite Process_loop_S; mred;
         cbn [Nat.ltb Nat.leb andb]; reflexivity).
  all: intros H; apply (IH _ _ H); eexists; split; reflexivity.
Qed.

(** X13: unless the connection is permanently closed with records still
    queued, running the drain again right after a drain changes nothing. *)
Theorem Process_twice_is_Process_once :
  forall (w w' : World) (d : Database),
    db w = Some d ->
    negb (open d) && locked d && negb (queue_empty d) = false ->
    Process w = Ok tt w' ->
    Process w' = Ok tt w'.
Proof.
  intros w w' d Hd Hc H.
  unfold Process, bind, get_db in H. rewrite Hd, Hc in H.
  destruct (open d) eqn:Ho.
  - destruct (Process_loop_fixed _ _ _ H) as ((d' & Hd' & Ho') & Hfix).
    { exists d. split; assumption. }
    unfold Process, bind, get_db. rewrite Hd', Ho'. cbn [negb andb]. apply Hfix.
  - cbn [List.length] in H. rewrite Process_loop_S in H.
    unfold bind, get_db in H. rewrite Hd, Ho in H. cbn [andb] in H.
    injection H as <-.
    unfold Process, bind, get_db. rewrite Hd, Ho, Hc.
    rewrite Process_loop_S. unfold bind, get_db. rewrite Hd, Ho. reflexivity.
Qed.

Lemma Process_twice_witness :
  exists w',
    Process (mkWorld (Some (mkDatabase true false 0
                              [Call.mk cb_BeginShared no_baton false; close_record 3]
                              (Some 7) Weak 0)) [] [] 0%Z [] false) = Ok tt w' /\
    Process w' = Ok tt w'.
Proof.
  eexists. split; [vm_compute; reflexivity|].
  eapply (Process_twice_is_Process_once
            (mkWorld (Some (mkDatabase true false 0
                              [Call.mk cb_BeginShared no_baton false; close_record 3]
                              (Some 7) Weak 0)) [] [] 0%Z [] false)).
  - reflexivity.
  - reflexivity.
  - vm_compute. reflexivity.
Defined.
